(** * Timeline reconstruction of temporal-flow-server

    A shallow embedding of [src/temporal.service.ts] (the history parser
    [parseTemporalHistory], the paginated fetch [getWorkflowData] and the
    assembler [getRootWorkflowData]) and of the [/workflow] route, with the
    properties of the specification stated over it.

    Conventions of the embedding.
    - Event identifiers and timestamps are opaque values that the parser only
      copies; they are integers here so that the ordering of timestamps can
      be stated.
    - [workflowMap] holds references to the very objects that sit in
      [chronologicalList]; a reference is the index of the object in that
      list (the list is only ever appended to, so indices are stable).
    - The record [workflowMap] is a map of its own keys. The names that the
      record inherits from its prototype ([inheritedName]) count as present
      for the test [in]; the object that such a name yields is not an item of
      the output, and what the parser writes to it is outside the state
      modelled here (the output list, the registry and the scope stack), as
      is the replacement of the prototype by an assignment to the key
      [__proto__] (a WorkflowExecutionStarted event for a workflow of that
      name), after which the record inherits further names. *)

From Stdlib Require Import ZArith Lia.
From stdpp Require Import base option list gmap strings pretty.

Definition EventId := Z.
Definition Time := Z.
Definition Payloads := list string.

Bind Scope Z_scope with EventId Time.

(** ** Events *)

Inductive EventType :=
  | WORKFLOW_EXECUTION_STARTED
  | WORKFLOW_EXECUTION_COMPLETED
  | WORKFLOW_EXECUTION_FAILED
  | WORKFLOW_EXECUTION_TIMED_OUT
  | WORKFLOW_EXECUTION_CANCELED
  | WORKFLOW_EXECUTION_TERMINATED
  | ACTIVITY_TASK_SCHEDULED
  | ACTIVITY_TASK_STARTED
  | ACTIVITY_TASK_COMPLETED
  | ACTIVITY_TASK_FAILED
  | ACTIVITY_TASK_TIMED_OUT
  | ACTIVITY_TASK_CANCELED
  | CHILD_WORKFLOW_EXECUTION_COMPLETED
  | CHILD_WORKFLOW_EXECUTION_STARTED
  | START_CHILD_WORKFLOW_EXECUTION_INITIATED
  | OTHER_EVENT_TYPE (name : string).

(** [{ name }], the shape of [workflowType] and [activityType]. *)
Record TypeName := { name : string }.

(** [{ payloads? }], the shape of [input] and [result]. *)
Record PayloadBox := { payloads : option Payloads }.

Module WorkflowExecution.
Record t := { workflowId : string; runId : string }.
End WorkflowExecution.

Module StartedAttrs.
(** [workflowExecutionStartedEventAttributes] *)
Record t := {
  workflowId : string;
  firstExecutionRunId : string;
  workflowType : TypeName;
  input : option PayloadBox }.
End StartedAttrs.

Module ScheduledAttrs.
(** [activityTaskScheduledEventAttributes] *)
Record t := {
  activityId : string;
  activityType : TypeName;
  workflowTaskCompletedEventId : option EventId }.
End ScheduledAttrs.

(** [activityTaskStartedEventAttributes]: the parser only tests its presence. *)
Inductive ActivityStartedAttrs := ActivityStartedAttrsPresent.

Module ActivityCompletedAttrs.
(** [activityTaskCompletedEventAttributes] *)
Record t := { result : option PayloadBox }.
End ActivityCompletedAttrs.

Module ChildCompletedAttrs.
(** [childWorkflowExecutionCompletedEventAttributes] *)
Record t := { workflowExecution : option WorkflowExecution.t }.
End ChildCompletedAttrs.

Module ChildStartedAttrs.
(** [childWorkflowExecutionStartedEventAttributes] *)
Record t := {
  workflowExecution : option WorkflowExecution.t;
  parentWorkflowExecution : option WorkflowExecution.t;
  workflowType : option TypeName }.
End ChildStartedAttrs.

Module InitiatedAttrs.
(** [startChildWorkflowExecutionInitiatedEventAttributes] *)
Record t := {
  workflowId : string;
  workflowType : option TypeName;
  workflowTaskCompletedEventId : option EventId }.
End InitiatedAttrs.

Record Event := {
  eventId : EventId;
  eventTime : Time;
  eventType : EventType;
  workflowExecutionStartedEventAttributes : option StartedAttrs.t;
  activityTaskScheduledEventAttributes : option ScheduledAttrs.t;
  activityTaskStartedEventAttributes : option ActivityStartedAttrs;
  activityTaskCompletedEventAttributes : option ActivityCompletedAttrs.t;
  childWorkflowExecutionCompletedEventAttributes : option ChildCompletedAttrs.t;
  childWorkflowExecutionStartedEventAttributes : option ChildStartedAttrs.t;
  startChildWorkflowExecutionInitiatedEventAttributes : option InitiatedAttrs.t }.

(** ** Timeline items *)

Inductive Status :=
  | RUNNING | SCHEDULED | STARTED
  | COMPLETED | FAILED | TIMED_OUT | CANCELED | TERMINATED.

#[global] Instance Status_eq_dec : EqDecision Status.
Proof. solve_decision. Defined.

(** The [type] tag of a workflow item. *)
Inductive WorkflowTag := workflow | childWorkflow.

#[global] Instance WorkflowTag_eq_dec : EqDecision WorkflowTag.
Proof. solve_decision. Defined.

Module Workflow.
Record t := {
  type : WorkflowTag;
  workflowId : string;
  runId : option string;
  workflowType : option string;
  startTime : Time;
  endTime : option Time;
  status : Status;
  relatedEventIds : list EventId;
  payload : option Payloads;
  parentWorkflowId : option string;
  parentRunId : option string;
  workflowTaskCompletedEventId : option EventId }.

Definition set_startTime (v : Time) (w : t) : t :=
  {| type := type w; workflowId := workflowId w; runId := runId w;
     workflowType := workflowType w; startTime := v; endTime := endTime w;
     status := status w; relatedEventIds := relatedEventIds w;
     payload := payload w; parentWorkflowId := parentWorkflowId w;
     parentRunId := parentRunId w;
     workflowTaskCompletedEventId := workflowTaskCompletedEventId w |}.

Definition set_endTime (v : Time) (w : t) : t :=
  {| type := type w; workflowId := workflowId w; runId := runId w;
     workflowType := workflowType w; startTime := startTime w;
     endTime := Some v;
     status := status w; relatedEventIds := relatedEventIds w;
     payload := payload w; parentWorkflowId := parentWorkflowId w;
     parentRunId := parentRunId w;
     workflowTaskCompletedEventId := workflowTaskCompletedEventId w |}.

Definition set_status (v : Status) (w : t) : t :=
  {| type := type w; workflowId := workflowId w; runId := runId w;
     workflowType := workflowType w; startTime := startTime w;
     endTime := endTime w;
     status := v; relatedEventIds := relatedEventIds w;
     payload := payload w; parentWorkflowId := parentWorkflowId w;
     parentRunId := parentRunId w;
     workflowTaskCompletedEventId := workflowTaskCompletedEventId w |}.

(** [w.relatedEventIds = w.relatedEventIds || []; w.relatedEventIds.push(v)];
    the field is an array from the creation of the object on. *)
Definition push_relatedEventId (v : EventId) (w : t) : t :=
  {| type := type w; workflowId := workflowId w; runId := runId w;
     workflowType := workflowType w; startTime := startTime w;
     endTime := endTime w;
     status := status w; relatedEventIds := relatedEventIds w ++ [v];
     payload := payload w; parentWorkflowId := parentWorkflowId w;
     parentRunId := parentRunId w;
     workflowTaskCompletedEventId := workflowTaskCompletedEventId w |}.

Definition set_workflowTaskCompletedEventId (v : option EventId) (w : t) : t :=
  {| type := type w; workflowId := workflowId w; runId := runId w;
     workflowType := workflowType w; startTime := startTime w;
     endTime := endTime w;
     status := status w; relatedEventIds := relatedEventIds w;
     payload := payload w; parentWorkflowId := parentWorkflowId w;
     parentRunId := parentRunId w;
     workflowTaskCompletedEventId := v |}.
End Workflow.

Module Activity.
(** The [type] tag of an activity item is always ['activity']: it is the
    constructor [ItemActivity] below. *)
Record t := {
  activityId : string;
  activityType : string;
  workflowId : string;
  scheduleTime : Time;
  startTime : option Time;
  endTime : option Time;
  status : Status;
  relatedEventIds : list EventId;
  workflowTaskCompletedEventId : option EventId;
  payload : option Payloads }.

Definition set_startTime (v : Time) (a : t) : t :=
  {| activityId := activityId a; activityType := activityType a;
     workflowId := workflowId a; scheduleTime := scheduleTime a;
     startTime := Some v; endTime := endTime a; status := status a;
     relatedEventIds := relatedEventIds a;
     workflowTaskCompletedEventId := workflowTaskCompletedEventId a;
     payload := payload a |}.

Definition set_endTime (v : Time) (a : t) : t :=
  {| activityId := activityId a; activityType := activityType a;
     workflowId := workflowId a; scheduleTime := scheduleTime a;
     startTime := startTime a; endTime := Some v; status := status a;
     relatedEventIds := relatedEventIds a;
     workflowTaskCompletedEventId := workflowTaskCompletedEventId a;
     payload := payload a |}.

Definition set_status (v : Status) (a : t) : t :=
  {| activityId := activityId a; activityType := activityType a;
     workflowId := workflowId a; scheduleTime := scheduleTime a;
     startTime := startTime a; endTime := endTime a; status := v;
     relatedEventIds := relatedEventIds a;
     workflowTaskCompletedEventId := workflowTaskCompletedEventId a;
     payload := payload a |}.

Definition push_relatedEventId (v : EventId) (a : t) : t :=
  {| activityId := activityId a; activityType := activityType a;
     workflowId := workflowId a; scheduleTime := scheduleTime a;
     startTime := startTime a; endTime := endTime a; status := status a;
     relatedEventIds := relatedEventIds a ++ [v];
     workflowTaskCompletedEventId := workflowTaskCompletedEventId a;
     payload := payload a |}.

Definition set_payload (v : Payloads) (a : t) : t :=
  {| activityId := activityId a; activityType := activityType a;
     workflowId := workflowId a; scheduleTime := scheduleTime a;
     startTime := startTime a; endTime := endTime a; status := status a;
     relatedEventIds := relatedEventIds a;
     workflowTaskCompletedEventId := workflowTaskCompletedEventId a;
     payload := Some v |}.
End Activity.

Inductive ChronologicalItem :=
  | ItemWorkflow (w : Workflow.t)
  | ItemActivity (a : Activity.t).

(** Mutation of the workflow object behind a reference. *)
Definition onWorkflow (f : Workflow.t → Workflow.t)
    (item : ChronologicalItem) : ChronologicalItem :=
  match item with
  | ItemWorkflow w => ItemWorkflow (f w)
  | ItemActivity a => ItemActivity a
  end.

Definition onActivity (f : Activity.t → Activity.t)
    (item : ChronologicalItem) : ChronologicalItem :=
  match item with
  | ItemWorkflow w => ItemWorkflow w
  | ItemActivity a => ItemActivity (f a)
  end.

(** ** Parser state *)

Record ParseState := {
  chronologicalList : list ChronologicalItem;
  workflowMap : gmap string nat;
  activityMap : gmap string nat;
  workflowStack : list string }.

Definition initialState : ParseState :=
  {| chronologicalList := []; workflowMap := ∅; activityMap := ∅;
     workflowStack := [] |}.

(** [workflowStack[workflowStack.length - 1]]: [None] is [undefined]. *)
Definition stackTop (stack : list string) : option string := last stack.

(** [workflowStack.pop()]: drops the last element, no effect when empty. *)
Definition stackPop (stack : list string) : list string :=
  take (length stack - 1) stack.

(** A property key made from a possibly undefined value: [undefined] is
    converted to the string ["undefined"]. *)
Definition propertyKey (k : option string) : string := default "undefined" k.

(** The property names that an object literal inherits from
    [Object.prototype]. *)
Definition inheritedName (k : string) : bool :=
  bool_decide
    (k ∈ ["constructor"; "__defineGetter__"; "__defineSetter__";
          "hasOwnProperty"; "__lookupGetter__"; "__lookupSetter__";
          "isPrototypeOf"; "propertyIsEnumerable"; "toString"; "valueOf";
          "__proto__"; "toLocaleString"]).

(** [k in workflowMap]: an own key of the record, or an inherited name. *)
Definition keyIn (m : gmap string nat) (k : string) : bool :=
  bool_decide (is_Some (m !! k)) || inheritedName k.

(** Truthiness of a possibly undefined string. *)
Definition truthy (s : option string) : bool :=
  match s with
  | Some v => negb (bool_decide (v = ""))
  | None => false
  end.

(** [for (let i = n - 1; i >= 0; i--) if (p (l[i])) { ...; break }]:
    the index the loop stops at, scanning the [n] first items backward. *)
Fixpoint scanBackward (p : ChronologicalItem → bool)
    (l : list ChronologicalItem) (n : nat) : option nat :=
  match n with
  | 0 => None
  | S i =>
      match l !! i with
      | Some item => if p item then Some i else scanBackward p l i
      | None => scanBackward p l i
      end
  end.

(** [item.type === 'activity' && item.workflowId === topWorkflowId &&
     item.status === 'SCHEDULED'] *)
Definition isScheduledActivityOf (topWorkflowId : option string)
    (item : ChronologicalItem) : bool :=
  match item with
  | ItemActivity a =>
      bool_decide (Some (Activity.workflowId a) = topWorkflowId)
      && bool_decide (Activity.status a = SCHEDULED)
  | ItemWorkflow _ => false
  end.

(** [item.type === 'activity' && item.workflowId === topWorkflowId &&
     (item.status === 'STARTED' || item.status === 'SCHEDULED')] *)
Definition isOpenActivityOf (topWorkflowId : option string)
    (item : ChronologicalItem) : bool :=
  match item with
  | ItemActivity a =>
      bool_decide (Some (Activity.workflowId a) = topWorkflowId)
      && (bool_decide (Activity.status a = STARTED)
          || bool_decide (Activity.status a = SCHEDULED))
  | ItemWorkflow _ => false
  end.

(** The inner [switch] of the terminal workflow events. *)
Definition workflowTerminalStatus (ty : EventType) (old : Status) : Status :=
  match ty with
  | WORKFLOW_EXECUTION_COMPLETED => COMPLETED
  | WORKFLOW_EXECUTION_FAILED => FAILED
  | WORKFLOW_EXECUTION_TIMED_OUT => TIMED_OUT
  | WORKFLOW_EXECUTION_CANCELED => CANCELED
  | WORKFLOW_EXECUTION_TERMINATED => TERMINATED
  | _ => old
  end.

(** The [switch] computing [newStatus] of the terminal activity events. *)
Definition activityNewStatus (ty : EventType) (old : Status) : Status :=
  match ty with
  | ACTIVITY_TASK_COMPLETED => COMPLETED
  | ACTIVITY_TASK_FAILED => FAILED
  | ACTIVITY_TASK_TIMED_OUT => TIMED_OUT
  | ACTIVITY_TASK_CANCELED => CANCELED
  | _ => old
  end.

(** [event.activityTaskCompletedEventAttributes?.result?.payloads] *)
Definition completedPayloads (event : Event) : option Payloads :=
  attrs ← activityTaskCompletedEventAttributes event;
  box ← ActivityCompletedAttrs.result attrs;
  payloads box.

Definition setItems (st : ParseState) (l : list ChronologicalItem) : ParseState :=
  {| chronologicalList := l; workflowMap := workflowMap st;
     activityMap := activityMap st; workflowStack := workflowStack st |}.

(** *** The cases of the [switch] of [parseTemporalHistory] *)

Definition onWorkflowExecutionStarted (st : ParseState) (event : Event) : ParseState :=
  match workflowExecutionStartedEventAttributes event with
  | Some attrs =>
      let wf :=
        {| Workflow.type := workflow;
           Workflow.workflowId := StartedAttrs.workflowId attrs;
           Workflow.runId := Some (StartedAttrs.firstExecutionRunId attrs);
           Workflow.workflowType := Some (name (StartedAttrs.workflowType attrs));
           Workflow.startTime := eventTime event;
           Workflow.endTime := None;
           Workflow.status := RUNNING;
           Workflow.relatedEventIds := [eventId event];
           Workflow.payload := StartedAttrs.input attrs ≫= payloads;
           Workflow.parentWorkflowId := None;
           Workflow.parentRunId := None;
           Workflow.workflowTaskCompletedEventId := None |} in
      {| chronologicalList := chronologicalList st ++ [ItemWorkflow wf];
         workflowMap :=
           <[StartedAttrs.workflowId attrs := length (chronologicalList st)]>
             (workflowMap st);
         activityMap := activityMap st;
         workflowStack := workflowStack st ++ [StartedAttrs.workflowId attrs] |}
  | None => st
  end.

(** [if (wf)] holds of the span registered under the key. For an inherited
    name that is no own key it holds of an object of the prototype, which
    takes the updates: the list is left as it is, as in the case [None]. *)
Definition onWorkflowExecutionClosed (st : ParseState) (event : Event) : ParseState :=
  let topWorkflowId := stackTop (workflowStack st) in
  let items :=
    match workflowMap st !! propertyKey topWorkflowId with
    | Some ref =>
        alter (onWorkflow (λ wf,
                 Workflow.set_status
                   (workflowTerminalStatus (eventType event) (Workflow.status wf))
                   (Workflow.push_relatedEventId (eventId event)
                      (Workflow.set_endTime (eventTime event) wf))))
              ref (chronologicalList st)
    | None => chronologicalList st
    end in
  {| chronologicalList := items; workflowMap := workflowMap st;
     activityMap := activityMap st;
     workflowStack := stackPop (workflowStack st) |}.

Definition onActivityTaskScheduled (st : ParseState) (event : Event) : ParseState :=
  let topWorkflowId := stackTop (workflowStack st) in
  match activityTaskScheduledEventAttributes event, topWorkflowId with
  | Some attrs, Some owner =>
      if truthy topWorkflowId then
        let activityIdKey := owner +:+ ":" +:+ ScheduledAttrs.activityId attrs in
        let act :=
          {| Activity.activityId := ScheduledAttrs.activityId attrs;
             Activity.activityType := name (ScheduledAttrs.activityType attrs);
             Activity.workflowId := owner;
             Activity.scheduleTime := eventTime event;
             Activity.startTime := None;
             Activity.endTime := None;
             Activity.status := SCHEDULED;
             Activity.relatedEventIds := [eventId event];
             Activity.workflowTaskCompletedEventId :=
               ScheduledAttrs.workflowTaskCompletedEventId attrs;
             Activity.payload := None |} in
        {| chronologicalList := chronologicalList st ++ [ItemActivity act];
           workflowMap := workflowMap st;
           activityMap :=
             <[activityIdKey := length (chronologicalList st)]> (activityMap st);
           workflowStack := workflowStack st |}
      else st
  | _, _ => st
  end.

Definition onActivityTaskStarted (st : ParseState) (event : Event) : ParseState :=
  match activityTaskStartedEventAttributes event with
  | Some _ =>
      let topWorkflowId := stackTop (workflowStack st) in
      let items := chronologicalList st in
      match scanBackward (isScheduledActivityOf topWorkflowId) items (length items) with
      | Some i =>
          setItems st
            (alter (onActivity (λ item,
                      Activity.push_relatedEventId (eventId event)
                        (Activity.set_status STARTED
                           (Activity.set_startTime (eventTime event) item))))
                   i items)
      | None => st
      end
  | None => st
  end.

Definition closeActivity (event : Event) (item : Activity.t) : Activity.t :=
  let item :=
    Activity.push_relatedEventId (eventId event)
      (Activity.set_status (activityNewStatus (eventType event) (Activity.status item))
         (Activity.set_endTime (eventTime event) item)) in
  match eventType event, completedPayloads event with
  | ACTIVITY_TASK_COMPLETED, Some p => Activity.set_payload p item
  | _, _ => item
  end.

Definition onActivityTaskClosed (st : ParseState) (event : Event) : ParseState :=
  let topWorkflowId := stackTop (workflowStack st) in
  let items := chronologicalList st in
  match scanBackward (isOpenActivityOf topWorkflowId) items (length items) with
  | Some i => setItems st (alter (onActivity (closeActivity event)) i items)
  | None => st
  end.

(** As above, [None] is also the case of an inherited name: the object of
    the prototype takes the updates and the list is left as it is. *)
Definition onChildWorkflowExecutionCompleted (st : ParseState) (event : Event) : ParseState :=
  match childWorkflowExecutionCompletedEventAttributes event
          ≫= ChildCompletedAttrs.workflowExecution with
  | Some exec =>
      let childWfId := WorkflowExecution.workflowId exec in
      match workflowMap st !! childWfId with
      | Some ref =>
          setItems st
            (alter (onWorkflow (λ childWorkflow,
                      Workflow.push_relatedEventId (eventId event)
                        (Workflow.set_status COMPLETED
                           (Workflow.set_endTime (eventTime event) childWorkflow))))
                   ref (chronologicalList st))
      | None => st
      end
  | None => st
  end.

(** [if (childWfId in workflowMap)]: the update goes to the registered span,
    or, for an inherited name that is no own key, to an object of the
    prototype, and then nothing of the state changes. *)
Definition onChildWorkflowExecutionStarted (st : ParseState) (event : Event) : ParseState :=
  match childWorkflowExecutionStartedEventAttributes event with
  | Some attrs =>
      match ChildStartedAttrs.workflowExecution attrs with
      | Some exec =>
          let childWfId := WorkflowExecution.workflowId exec in
          let childRunId := WorkflowExecution.runId exec in
          if keyIn (workflowMap st) childWfId then
            match workflowMap st !! childWfId with
            | Some ref =>
                setItems st
                  (alter (onWorkflow (λ existingChildWorkflow,
                            Workflow.push_relatedEventId (eventId event)
                              (Workflow.set_startTime (eventTime event)
                                 existingChildWorkflow)))
                         ref (chronologicalList st))
            | None => st
            end
          else
              let childWorkflow :=
                {| Workflow.type := childWorkflow;
                   Workflow.workflowId := childWfId;
                   Workflow.runId := Some childRunId;
                   Workflow.workflowType :=
                     name <$> ChildStartedAttrs.workflowType attrs;
                   Workflow.startTime := eventTime event;
                   Workflow.endTime := None;
                   Workflow.status := RUNNING;
                   Workflow.relatedEventIds := [eventId event];
                   Workflow.payload := None;
                   Workflow.parentWorkflowId :=
                     WorkflowExecution.workflowId
                       <$> ChildStartedAttrs.parentWorkflowExecution attrs;
                   Workflow.parentRunId :=
                     WorkflowExecution.runId
                       <$> ChildStartedAttrs.parentWorkflowExecution attrs;
                   Workflow.workflowTaskCompletedEventId := None |} in
              {| chronologicalList :=
                   chronologicalList st ++ [ItemWorkflow childWorkflow];
                 workflowMap :=
                   <[childWfId := length (chronologicalList st)]> (workflowMap st);
                 activityMap := activityMap st;
                 workflowStack := workflowStack st ++ [childWfId] |}
      | None => st
      end
  | None => st
  end.

(** [if (attrs.workflowId in workflowMap)], as in the case above. *)
Definition onStartChildWorkflowExecutionInitiated (st : ParseState) (event : Event) : ParseState :=
  match startChildWorkflowExecutionInitiatedEventAttributes event with
  | Some attrs =>
      if keyIn (workflowMap st) (InitiatedAttrs.workflowId attrs) then
        match workflowMap st !! InitiatedAttrs.workflowId attrs with
        | Some ref =>
            setItems st
              (alter (onWorkflow (λ existingChildWorkflow,
                        Workflow.set_workflowTaskCompletedEventId
                          (InitiatedAttrs.workflowTaskCompletedEventId attrs)
                          (Workflow.push_relatedEventId (eventId event)
                             (Workflow.set_startTime (eventTime event)
                                existingChildWorkflow))))
                     ref (chronologicalList st))
        | None => st
        end
      else
          let childWorkflow :=
            {| Workflow.type := childWorkflow;
               Workflow.workflowId := InitiatedAttrs.workflowId attrs;
               Workflow.runId := None;
               Workflow.workflowType := name <$> InitiatedAttrs.workflowType attrs;
               Workflow.startTime := eventTime event;
               Workflow.endTime := None;
               Workflow.status := RUNNING;
               Workflow.relatedEventIds := [eventId event];
               Workflow.payload := None;
               Workflow.parentWorkflowId := Some (InitiatedAttrs.workflowId attrs);
               Workflow.parentRunId := None;
               Workflow.workflowTaskCompletedEventId :=
                 InitiatedAttrs.workflowTaskCompletedEventId attrs |} in
          {| chronologicalList :=
               chronologicalList st ++ [ItemWorkflow childWorkflow];
             workflowMap :=
               <[InitiatedAttrs.workflowId attrs := length (chronologicalList st)]>
                 (workflowMap st);
             activityMap := activityMap st;
             workflowStack := workflowStack st |}
  | None => st
  end.

(** One iteration of the [for (const event of events)] loop. *)
Definition step (st : ParseState) (event : Event) : ParseState :=
  match eventType event with
  | WORKFLOW_EXECUTION_STARTED => onWorkflowExecutionStarted st event
  | WORKFLOW_EXECUTION_COMPLETED
  | WORKFLOW_EXECUTION_FAILED
  | WORKFLOW_EXECUTION_TIMED_OUT
  | WORKFLOW_EXECUTION_CANCELED
  | WORKFLOW_EXECUTION_TERMINATED => onWorkflowExecutionClosed st event
  | ACTIVITY_TASK_SCHEDULED => onActivityTaskScheduled st event
  | ACTIVITY_TASK_STARTED => onActivityTaskStarted st event
  | ACTIVITY_TASK_COMPLETED
  | ACTIVITY_TASK_FAILED
  | ACTIVITY_TASK_TIMED_OUT
  | ACTIVITY_TASK_CANCELED => onActivityTaskClosed st event
  | CHILD_WORKFLOW_EXECUTION_COMPLETED => onChildWorkflowExecutionCompleted st event
  | CHILD_WORKFLOW_EXECUTION_STARTED => onChildWorkflowExecutionStarted st event
  | START_CHILD_WORKFLOW_EXECUTION_INITIATED =>
      onStartChildWorkflowExecutionInitiated st event
  | OTHER_EVENT_TYPE _ => st
  end.

(** The state after the loop has consumed [events]. *)
Definition run (st : ParseState) (events : list Event) : ParseState :=
  foldl step st events.

Definition parseTemporalHistory (events : list Event) : list ChronologicalItem :=
  chronologicalList (run initialState events).

(** ** The paginated fetch and the assembler *)

Record History := { events : list Event }.

(** The JSON body of a successful answer of the upstream. *)
Module HistoryResponse.
Record t := {
  history : History;
  nextPageToken : option string }.
End HistoryResponse.

(** What [fetch] resolves to: the HTTP status, and what reading the body
    gives: the decoded body [data], or the message of the error thrown when
    [response.json()] rejects or [data.history.events] cannot be read. *)
Record Response := {
  status : Z;
  json : string + HistoryResponse.t }.

(** What awaiting [fetch] gives: it rejects with an error of the platform, of
    which the message is kept, or it resolves to a response. *)
Inductive Answer :=
  | Rejected (message : string)
  | Resolved (response : Response).

(** [response.ok]: the status is in the range 200-299. *)
Definition ok (response : Response) : bool :=
  (200 <=? status response)%Z && (status response <=? 299)%Z.

(** What the code can throw: an [Error] (of the class itself or of a class
    of the platform such as [TypeError]; only the message is read), or the
    [NotFoundException] that the route imports from the exceptions module. *)
Inductive Exception :=
  | Error (message : string)
  | NotFoundException (message : string).

(** The result of awaiting an asynchronous function: it returns, it throws,
    or it is still waiting for an answer that the upstream never sends. *)
Inductive Outcome (A : Type) :=
  | Returned (value : A)
  | Thrown (exception : Exception)
  | Pending.
Arguments Returned {A} value.
Arguments Thrown {A} exception.
Arguments Pending {A}.

Record TemporalService := {
  apiKey : string;
  endpoint : string }.

Record Request := {
  url : string;
  authorization : string }.

Record TemporalWorkflowChronologicalItems := {
  rootWorkflow : list ChronologicalItem;
  childWorkflows : gmap string (list ChronologicalItem) }.

Section Service.
(** The environment of the service: the URL encoder of the platform, and
    the upstream, given as the answers it sends, in order, to the
    successive requests made on one history resource (named by its URL
    without the page token). *)
Context (encodeURIComponent : string → string).
Context (upstream : string → list Answer).
Context (this : TemporalService).

Definition historyUrl (namespace workflowId : string) : string :=
  "https://" +:+ endpoint this +:+ ".web.tmprl.cloud/api/v1/namespaces/"
    +:+ namespace +:+ "/workflows/" +:+ workflowId
    +:+ "/history?next_page_token=".

(** [nextPageToken ? baseUrl + encodeURIComponent(nextPageToken) : baseUrl] *)
Definition requestUrl (baseUrl : string) (nextPageToken : option string)
    : string :=
  match nextPageToken with
  | Some token =>
      if truthy nextPageToken then baseUrl +:+ encodeURIComponent token
      else baseUrl
  | None => baseUrl
  end.

Definition request (url : string) : Request :=
  {| url := url; authorization := "Bearer " +:+ apiKey this |}.

(** The [do ... while (nextPageToken)] loop, one iteration per answer.
    It also records the requests it issues. *)
Fixpoint fetchLoop (baseUrl : string) (responses : list Answer)
    (nextPageToken : option string) (allEvents : list Event)
    (requests : list Request) : list Request * Outcome (list Event) :=
  let url := requestUrl baseUrl nextPageToken in
  let requests := requests ++ [request url] in
  match responses with
  | [] => (requests, Pending)
  | Rejected message :: _ => (requests, Thrown (Error message))
  | Resolved response :: rest =>
      if negb (ok response) then
        (requests,
         Thrown (Error ("Failed to fetch workflow history. Status: "
                        +:+ pretty (status response))))
      else
        match json response with
        | inl message => (requests, Thrown (Error message))
        | inr data =>
            let allEvents := allEvents ++ events (HistoryResponse.history data) in
            if truthy (HistoryResponse.nextPageToken data) then
              fetchLoop baseUrl rest (HistoryResponse.nextPageToken data)
                allEvents requests
            else (requests, Returned allEvents)
        end
  end.

Definition getWorkflowDataTraced (namespace workflowId : string)
    : list Request * Outcome (list Event) :=
  let baseUrl := historyUrl namespace workflowId in
  fetchLoop baseUrl (upstream baseUrl) None [] [].

Definition getWorkflowData (namespace workflowId : string)
    : Outcome (list Event) :=
  snd (getWorkflowDataTraced namespace workflowId).

(** The [for (const item of rootWorkflowChronologicalItems)] loop; the
    [catch] block only logs. *)
Fixpoint childrenLoop (namespace : string) (items : list ChronologicalItem)
    (childWorkflowsMap : gmap string (list ChronologicalItem))
    : Outcome (gmap string (list ChronologicalItem)) :=
  match items with
  | [] => Returned childWorkflowsMap
  | ItemWorkflow item :: rest =>
      if bool_decide (Workflow.type item = childWorkflow) then
        let childWorkflowId := Workflow.workflowId item in
        match getWorkflowData namespace childWorkflowId with
        | Returned childWorkflowHistoryResponse =>
            childrenLoop namespace rest
              (<[childWorkflowId :=
                   parseTemporalHistory childWorkflowHistoryResponse]>
                 childWorkflowsMap)
        | Thrown _ => childrenLoop namespace rest childWorkflowsMap
        | Pending => Pending
        end
      else childrenLoop namespace rest childWorkflowsMap
  | ItemActivity _ :: rest => childrenLoop namespace rest childWorkflowsMap
  end.

Definition getRootWorkflowData (namespace rootWorkflowId : string)
    : Outcome TemporalWorkflowChronologicalItems :=
  match getWorkflowData namespace rootWorkflowId with
  | Returned historyResponse =>
      let rootWorkflowChronologicalItems := parseTemporalHistory historyResponse in
      match childrenLoop namespace rootWorkflowChronologicalItems ∅ with
      | Returned childWorkflowsMap =>
          Returned {| rootWorkflow := rootWorkflowChronologicalItems;
                      childWorkflows := childWorkflowsMap |}
      | Thrown e => Thrown e
      | Pending => Pending
      end
  | Thrown e => Thrown e
  | Pending => Pending
  end.

(** *** The route [GET /workflow] *)

Inductive Body :=
  | JsonData (data : TemporalWorkflowChronologicalItems)
  | JsonError (error : string).

Record HttpResponse := {
  code : Z;
  body : Body }.

(** The handler of [app.get("/workflow", ...)]; the extra argument [runId]
    that it passes is not a parameter of [getRootWorkflowData]. [None] is a
    request that is never answered. *)
Definition workflowRoute (id namespace runId : option string)
    : option HttpResponse :=
  match id, namespace, runId with
  | Some idValue, Some namespaceValue, Some _ =>
      if negb (truthy id) || negb (truthy namespace) || negb (truthy runId) then
        Some {| code := 400; body := JsonError "Missing required query parameters" |}
      else
        match getRootWorkflowData namespaceValue idValue with
        | Returned data => Some {| code := 200; body := JsonData data |}
        | Thrown (NotFoundException message) =>
            Some {| code := 404; body := JsonError message |}
        | Thrown (Error message) =>
            Some {| code := 500; body := JsonError message |}
        | Pending => None
        end
  | _, _, _ =>
      Some {| code := 400; body := JsonError "Missing required query parameters" |}
  end.
End Service.

(** ** Sample events

    Events as the engine emits them, used by the examples below: the
    attributes of the event's own kind are present, the others absent. *)

Module Sample.
Definition bare (i : EventId) (t : Time) (ty : EventType) : Event :=
  {| eventId := i; eventTime := t; eventType := ty;
     workflowExecutionStartedEventAttributes := None;
     activityTaskScheduledEventAttributes := None;
     activityTaskStartedEventAttributes := None;
     activityTaskCompletedEventAttributes := None;
     childWorkflowExecutionCompletedEventAttributes := None;
     childWorkflowExecutionStartedEventAttributes := None;
     startChildWorkflowExecutionInitiatedEventAttributes := None |}.

Definition workflowStarted (i : EventId) (t : Time) (wid : string) : Event :=
  {| eventId := i; eventTime := t; eventType := WORKFLOW_EXECUTION_STARTED;
     workflowExecutionStartedEventAttributes :=
       Some {| StartedAttrs.workflowId := wid;
               StartedAttrs.firstExecutionRunId := "run-" +:+ wid;
               StartedAttrs.workflowType := {| name := "Main" |};
               StartedAttrs.input := None |};
     activityTaskScheduledEventAttributes := None;
     activityTaskStartedEventAttributes := None;
     activityTaskCompletedEventAttributes := None;
     childWorkflowExecutionCompletedEventAttributes := None;
     childWorkflowExecutionStartedEventAttributes := None;
     startChildWorkflowExecutionInitiatedEventAttributes := None |}.

Definition activityScheduled (i : EventId) (t : Time) (aid : string) : Event :=
  {| eventId := i; eventTime := t; eventType := ACTIVITY_TASK_SCHEDULED;
     workflowExecutionStartedEventAttributes := None;
     activityTaskScheduledEventAttributes :=
       Some {| ScheduledAttrs.activityId := aid;
               ScheduledAttrs.activityType := {| name := "Work" |};
               ScheduledAttrs.workflowTaskCompletedEventId := None |};
     activityTaskStartedEventAttributes := None;
     activityTaskCompletedEventAttributes := None;
     childWorkflowExecutionCompletedEventAttributes := None;
     childWorkflowExecutionStartedEventAttributes := None;
     startChildWorkflowExecutionInitiatedEventAttributes := None |}.

Definition activityStarted (i : EventId) (t : Time) : Event :=
  {| eventId := i; eventTime := t; eventType := ACTIVITY_TASK_STARTED;
     workflowExecutionStartedEventAttributes := None;
     activityTaskScheduledEventAttributes := None;
     activityTaskStartedEventAttributes := Some ActivityStartedAttrsPresent;
     activityTaskCompletedEventAttributes := None;
     childWorkflowExecutionCompletedEventAttributes := None;
     childWorkflowExecutionStartedEventAttributes := None;
     startChildWorkflowExecutionInitiatedEventAttributes := None |}.

Definition activityCompleted (i : EventId) (t : Time) : Event :=
  {| eventId := i; eventTime := t; eventType := ACTIVITY_TASK_COMPLETED;
     workflowExecutionStartedEventAttributes := None;
     activityTaskScheduledEventAttributes := None;
     activityTaskStartedEventAttributes := None;
     activityTaskCompletedEventAttributes :=
       Some {| ActivityCompletedAttrs.result := None |};
     childWorkflowExecutionCompletedEventAttributes := None;
     childWorkflowExecutionStartedEventAttributes := None;
     startChildWorkflowExecutionInitiatedEventAttributes := None |}.

Definition childInitiated (i : EventId) (t : Time) (wid : string) : Event :=
  {| eventId := i; eventTime := t;
     eventType := START_CHILD_WORKFLOW_EXECUTION_INITIATED;
     workflowExecutionStartedEventAttributes := None;
     activityTaskScheduledEventAttributes := None;
     activityTaskStartedEventAttributes := None;
     activityTaskCompletedEventAttributes := None;
     childWorkflowExecutionCompletedEventAttributes := None;
     childWorkflowExecutionStartedEventAttributes := None;
     startChildWorkflowExecutionInitiatedEventAttributes :=
       Some {| InitiatedAttrs.workflowId := wid;
               InitiatedAttrs.workflowType := Some {| name := "Child" |};
               InitiatedAttrs.workflowTaskCompletedEventId := None |} |}.

Definition childStarted (i : EventId) (t : Time) (parent wid : string) : Event :=
  {| eventId := i; eventTime := t;
     eventType := CHILD_WORKFLOW_EXECUTION_STARTED;
     workflowExecutionStartedEventAttributes := None;
     activityTaskScheduledEventAttributes := None;
     activityTaskStartedEventAttributes := None;
     activityTaskCompletedEventAttributes := None;
     childWorkflowExecutionCompletedEventAttributes := None;
     childWorkflowExecutionStartedEventAttributes :=
       Some {| ChildStartedAttrs.workflowExecution :=
                 Some {| WorkflowExecution.workflowId := wid;
                         WorkflowExecution.runId := "run-" +:+ wid |};
               ChildStartedAttrs.parentWorkflowExecution :=
                 Some {| WorkflowExecution.workflowId := parent;
                         WorkflowExecution.runId := "run-" +:+ parent |};
               ChildStartedAttrs.workflowType := Some {| name := "Child" |} |};
     startChildWorkflowExecutionInitiatedEventAttributes := None |}.

Definition childCompleted (i : EventId) (t : Time) (wid : string) : Event :=
  {| eventId := i; eventTime := t;
     eventType := CHILD_WORKFLOW_EXECUTION_COMPLETED;
     workflowExecutionStartedEventAttributes := None;
     activityTaskScheduledEventAttributes := None;
     activityTaskStartedEventAttributes := None;
     activityTaskCompletedEventAttributes := None;
     childWorkflowExecutionCompletedEventAttributes :=
       Some {| ChildCompletedAttrs.workflowExecution :=
                 Some {| WorkflowExecution.workflowId := wid;
                         WorkflowExecution.runId := "run-" +:+ wid |} |};
     childWorkflowExecutionStartedEventAttributes := None;
     startChildWorkflowExecutionInitiatedEventAttributes := None |}.
End Sample.

(** * Vocabulary of the properties *)

(** ** Kinds of events *)

Definition isWorkflowClosing (ty : EventType) : bool :=
  match ty with
  | WORKFLOW_EXECUTION_COMPLETED | WORKFLOW_EXECUTION_FAILED
  | WORKFLOW_EXECUTION_TIMED_OUT | WORKFLOW_EXECUTION_CANCELED
  | WORKFLOW_EXECUTION_TERMINATED => true
  | _ => false
  end.

Definition isActivityClosing (ty : EventType) : bool :=
  match ty with
  | ACTIVITY_TASK_COMPLETED | ACTIVITY_TASK_FAILED
  | ACTIVITY_TASK_TIMED_OUT | ACTIVITY_TASK_CANCELED => true
  | _ => false
  end.


(** ** Reading the fields that the item kinds share *)

Definition itemStatus (item : ChronologicalItem) : Status :=
  match item with
  | ItemWorkflow w => Workflow.status w
  | ItemActivity a => Activity.status a
  end.

Definition itemStartTime (item : ChronologicalItem) : option Time :=
  match item with
  | ItemWorkflow w => Some (Workflow.startTime w)
  | ItemActivity a => Activity.startTime a
  end.

Definition itemEndTime (item : ChronologicalItem) : option Time :=
  match item with
  | ItemWorkflow w => Workflow.endTime w
  | ItemActivity a => Activity.endTime a
  end.

Definition itemRelatedEventIds (item : ChronologicalItem) : list EventId :=
  match item with
  | ItemWorkflow w => Workflow.relatedEventIds w
  | ItemActivity a => Activity.relatedEventIds a
  end.

(** ** Resolution of activity events *)

(** An activity span of [owner] that an event of kind [ty] can still
    resolve to: scheduled, or also started when [ty] closes activities. *)
Definition openFor (ty : EventType) (owner : option string)
    (item : ChronologicalItem) : Prop :=
  ∃ a, item = ItemActivity a ∧ Some (Activity.workflowId a) = owner ∧
       (Activity.status a = SCHEDULED ∨
        (ty ≠ ACTIVITY_TASK_STARTED ∧ Activity.status a = STARTED)).

(** The span [a] once [event] has been resolved to it. *)
Definition activityAfter (event : Event) (a : Activity.t) : Activity.t :=
  {| Activity.activityId := Activity.activityId a;
     Activity.activityType := Activity.activityType a;
     Activity.workflowId := Activity.workflowId a;
     Activity.scheduleTime := Activity.scheduleTime a;
     Activity.startTime :=
       match eventType event with
       | ACTIVITY_TASK_STARTED => Some (eventTime event)
       | _ => Activity.startTime a
       end;
     Activity.endTime :=
       match eventType event with
       | ACTIVITY_TASK_STARTED => Activity.endTime a
       | _ => Some (eventTime event)
       end;
     Activity.status :=
       match eventType event with
       | ACTIVITY_TASK_STARTED => STARTED
       | ACTIVITY_TASK_COMPLETED => COMPLETED
       | ACTIVITY_TASK_FAILED => FAILED
       | ACTIVITY_TASK_TIMED_OUT => TIMED_OUT
       | ACTIVITY_TASK_CANCELED => CANCELED
       | _ => Activity.status a
       end;
     Activity.relatedEventIds := Activity.relatedEventIds a ++ [eventId event];
     Activity.workflowTaskCompletedEventId :=
       Activity.workflowTaskCompletedEventId a;
     Activity.payload :=
       match eventType event, completedPayloads event with
       | ACTIVITY_TASK_COMPLETED, Some p => Some p
       | _, _ => Activity.payload a
       end |}.

(** The resolution in the words of the specification: the span must match
    the pair (owning workflow, activity identifier) and still be open. *)
Definition matchesPair (ty : EventType) (owner : option string)
    (activityId : string) (item : ChronologicalItem) : bool :=
  match item with
  | ItemActivity a =>
      bool_decide (Some (Activity.workflowId a) = owner)
      && bool_decide (Activity.activityId a = activityId)
      && (bool_decide (Activity.status a = SCHEDULED)
          || (isActivityClosing ty && bool_decide (Activity.status a = STARTED)))
  | ItemWorkflow _ => false
  end.

(** The most recently created item that satisfies a test. *)
Definition mostRecentIndex (p : ChronologicalItem → bool)
    (items : list ChronologicalItem) : option nat :=
  last (omap (λ entry : nat * ChronologicalItem,
                if p entry.2 then Some entry.1 else None)
             (imap pair items)).

(** ** Closing of workflows *)

(** The workflow span [w] once the closing event [event] is applied to it. *)
Definition workflowAfterClosing (event : Event) (w : Workflow.t) : Workflow.t :=
  {| Workflow.type := Workflow.type w;
     Workflow.workflowId := Workflow.workflowId w;
     Workflow.runId := Workflow.runId w;
     Workflow.workflowType := Workflow.workflowType w;
     Workflow.startTime := Workflow.startTime w;
     Workflow.endTime := Some (eventTime event);
     Workflow.status :=
       match eventType event with
       | WORKFLOW_EXECUTION_COMPLETED => COMPLETED
       | WORKFLOW_EXECUTION_FAILED => FAILED
       | WORKFLOW_EXECUTION_TIMED_OUT => TIMED_OUT
       | WORKFLOW_EXECUTION_CANCELED => CANCELED
       | WORKFLOW_EXECUTION_TERMINATED => TERMINATED
       | _ => Workflow.status w
       end;
     Workflow.relatedEventIds := Workflow.relatedEventIds w ++ [eventId event];
     Workflow.payload := Workflow.payload w;
     Workflow.parentWorkflowId := Workflow.parentWorkflowId w;
     Workflow.parentRunId := Workflow.parentRunId w;
     Workflow.workflowTaskCompletedEventId :=
       Workflow.workflowTaskCompletedEventId w |}.

(** ** Pages of a history *)

(** The page that an answer delivers: the decoded body of a response that
    has a successful status and a body that can be read. *)
Definition pageOf (answer : Answer) : option HistoryResponse.t :=
  match answer with
  | Resolved response =>
      if ok response then
        match json response with
        | inr data => Some data
        | inl _ => None
        end
      else None
  | Rejected _ => None
  end.

Definition pageEvents (answer : Answer) : list Event :=
  match pageOf answer with
  | Some data => events (HistoryResponse.history data)
  | None => []
  end.

(** A successful answer that carries a continuation token. *)
Definition continues (answer : Answer) : bool :=
  match pageOf answer with
  | Some data => truthy (HistoryResponse.nextPageToken data)
  | None => false
  end.

(** A successful answer that carries no continuation token. *)
Definition isLastPage (answer : Answer) : bool :=
  match pageOf answer with
  | Some data => negb (truthy (HistoryResponse.nextPageToken data))
  | None => false
  end.

(** The continuation token of a page, as a string. *)
Definition pageToken (answer : Answer) : string :=
  default "" (pageOf answer ≫= HistoryResponse.nextPageToken).

(** The URL of the request that follows the page [answer]. *)
Definition nextUrl (encodeURIComponent : string → string) (baseUrl : string)
    (answer : Answer) : string :=
  baseUrl +:+ encodeURIComponent (pageToken answer).

(** The message of the error thrown for a non-successful answer. *)
Definition failureMessage (response : Response) : string :=
  "Failed to fetch workflow history. Status: " +:+ pretty (status response).

(** The identifiers of the child workflows that a timeline mentions. *)
Definition childIds (items : list ChronologicalItem) : list string :=
  omap (λ item, match item with
                | ItemWorkflow w =>
                    if bool_decide (Workflow.type w = childWorkflow)
                    then Some (Workflow.workflowId w) else None
                | ItemActivity _ => None
                end) items.

(** ** States used by the examples *)

Module Scenario.
Import Sample.

(** A workflow with two activities scheduled and not yet started. *)
Definition twoScheduled : ParseState :=
  run initialState
    [workflowStarted 1 10 "wfA"; activityScheduled 2 20 "1";
     activityScheduled 3 30 "2"].

(** A workflow that has initiated nothing yet. *)
Definition rootOnly : ParseState :=
  run initialState [workflowStarted 1 10 "wfA"].

Definition service : TemporalService :=
  {| apiKey := "key"; endpoint := "acme" |}.

(** An encoder that leaves the tokens of the examples as they are. *)
Definition plainEncoder (s : string) : string := s.

Definition page (pageEvents : list Event) (token : option string) : Answer :=
  Resolved
    {| status := 200;
       json := inr {| HistoryResponse.history := {| events := pageEvents |};
                      HistoryResponse.nextPageToken := token |} |}.

(** A response with a non-successful status; its body is never read. *)
Definition failure (code : Z) : Response :=
  {| status := code; json := inl "Unexpected end of JSON input" |}.

(** A history served in three pages, with the tokens t1, t2 and none. *)
Definition threePages (url : string) : list Answer :=
  [page [workflowStarted 1 10 "wfA"; activityScheduled 2 20 "act1"] (Some "t1");
   page [activityStarted 3 30] (Some "t2");
   page [activityCompleted 4 40; bare 5 50 WORKFLOW_EXECUTION_COMPLETED] None].

(** An upstream that knows no execution at all. *)
Definition nothingFound (url : string) : list Answer :=
  [Resolved (failure 404)].

End Scenario.

(** ** Evolution of the output list *)

Definition isTerminal (s : Status) : bool :=
  match s with
  | COMPLETED | FAILED | TIMED_OUT | CANCELED | TERMINATED => true
  | RUNNING | SCHEDULED | STARTED => false
  end.

(** [new] is a later state of the object [old]: the same kind of item with
    the same identifying fields, whose related event identifiers have only
    been appended to, and which has not been reopened. *)
Definition laterVersion (old new : ChronologicalItem) : Prop :=
  match old, new with
  | ItemWorkflow w, ItemWorkflow w' =>
      Workflow.type w = Workflow.type w' ∧
      Workflow.workflowId w = Workflow.workflowId w' ∧
      Workflow.relatedEventIds w `prefix_of` Workflow.relatedEventIds w' ∧
      (is_Some (Workflow.endTime w) → is_Some (Workflow.endTime w')) ∧
      (isTerminal (Workflow.status w) = true →
       isTerminal (Workflow.status w') = true)
  | ItemActivity a, ItemActivity a' =>
      Activity.activityId a = Activity.activityId a' ∧
      Activity.workflowId a = Activity.workflowId a' ∧
      Activity.activityType a = Activity.activityType a' ∧
      Activity.scheduleTime a = Activity.scheduleTime a' ∧
      Activity.relatedEventIds a `prefix_of` Activity.relatedEventIds a' ∧
      (is_Some (Activity.endTime a) → is_Some (Activity.endTime a')) ∧
      (isTerminal (Activity.status a) = true →
       isTerminal (Activity.status a') = true)
  | _, _ => False
  end.


(** ** Workflow spans per identifier *)

Definition workflowIds (items : list ChronologicalItem) : list string :=
  omap (λ item, match item with
                | ItemWorkflow w => Some (Workflow.workflowId w)
                | ItemActivity _ => None
                end) items.

(** A WorkflowExecutionStarted event names a workflow that is not
    registered yet; true of the other events. *)
Definition freshStart (st : ParseState) (event : Event) : bool :=
  match eventType event, workflowExecutionStartedEventAttributes event with
  | WORKFLOW_EXECUTION_STARTED, Some attrs =>
      bool_decide (workflowMap st !! StartedAttrs.workflowId attrs = None)
  | _, _ => true
  end.

Fixpoint startsAreFresh (st : ParseState) (events : list Event) : bool :=
  match events with
  | [] => true
  | event :: rest => freshStart st event && startsAreFresh (step st event) rest
  end.

(** Every workflow item is the one registered under its identifier. *)
Definition registered (st : ParseState) : Prop :=
  ∀ i w, chronologicalList st !! i = Some (ItemWorkflow w) →
         workflowMap st !! Workflow.workflowId w = Some i.

(** ** Timestamps *)

Fixpoint nonDecreasingFrom (now : Time) (events : list Event) : bool :=
  match events with
  | [] => true
  | event :: rest =>
      (now <=? eventTime event)%Z && nonDecreasingFrom (eventTime event) rest
  end.

(** The timestamps of the events never decrease along the sequence. *)
Definition timesNonDecreasing (events : list Event) : bool :=
  match events with
  | [] => true
  | event :: rest => nonDecreasingFrom (eventTime event) rest
  end.

(** The workflow identifier that a ChildWorkflowExecutionStarted or
    StartChildWorkflowExecutionInitiated event is about. *)
Definition startedChildId (event : Event) : option string :=
  match eventType event with
  | CHILD_WORKFLOW_EXECUTION_STARTED =>
      exec ← childWorkflowExecutionStartedEventAttributes event
               ≫= ChildStartedAttrs.workflowExecution;
      Some (WorkflowExecution.workflowId exec)
  | START_CHILD_WORKFLOW_EXECUTION_INITIATED =>
      InitiatedAttrs.workflowId
        <$> startChildWorkflowExecutionInitiatedEventAttributes event
  | _ => None
  end.

(** The event starts again a workflow whose span already has an end time. *)
Definition restartsClosedSpan (st : ParseState) (event : Event) : bool :=
  match startedChildId event with
  | Some childWfId =>
      match workflowMap st !! childWfId with
      | Some ref =>
          match chronologicalList st !! ref with
          | Some (ItemWorkflow w) => bool_decide (is_Some (Workflow.endTime w))
          | _ => false
          end
      | None => false
      end
  | None => false
  end.

Fixpoint neverRestartsClosedSpan (st : ParseState) (events : list Event) : bool :=
  match events with
  | [] => true
  | event :: rest =>
      negb (restartsClosedSpan st event)
      && neverRestartsClosedSpan (step st event) rest
  end.

(** The times of an item are consistent and not later than [now]. *)
Definition itemTimely (now : Time) (item : ChronologicalItem) : Prop :=
  match item with
  | ItemWorkflow w =>
      (Workflow.startTime w ≤ now)%Z ∧
      ∀ t, Workflow.endTime w = Some t → (Workflow.startTime w ≤ t)%Z
  | ItemActivity a =>
      (∀ s, Activity.startTime a = Some s → (s ≤ now)%Z) ∧
      (∀ s t, Activity.startTime a = Some s → Activity.endTime a = Some t →
              (s ≤ t)%Z) ∧
      (Activity.status a = SCHEDULED → Activity.endTime a = None)
  end.

(** ** First mentions *)








(** * The rest of the service *)

(** ** Construction of the service

    [process.env] is the map of the environment variables that are set;
    [process.env.X ?? ""] reads a variable, and [!value] holds of the empty
    string. The constructor returns the service or throws. *)

Definition newTemporalService (env : gmap string string)
    : Exception + TemporalService :=
  let apiKeyValue := default "" (env !! "TEMPORAL_API_KEY") in
  let endpointValue := default "" (env !! "TEMPORAL_ENDPOINT") in
  if bool_decide (apiKeyValue = "") then
    inl (Error "Temporal API Key is required")
  else if bool_decide (endpointValue = "") then
    inl (Error "Temporal Endpoint is required")
  else inr {| apiKey := apiKeyValue; endpoint := endpointValue |}.

(** ** The effect of one event on the state *)

(** What an update in place does to a workflow span: the identifying fields
    stay, the event identifier is appended, and the event either closes the
    span or sets its start time anew. *)
Definition workflowTouched (event : Event) (w w' : Workflow.t) : Prop :=
  Workflow.type w' = Workflow.type w ∧
  Workflow.workflowId w' = Workflow.workflowId w ∧
  Workflow.relatedEventIds w' = Workflow.relatedEventIds w ++ [eventId event] ∧
  ((Workflow.endTime w' = Some (eventTime event) ∧
    isTerminal (Workflow.status w') = true ∧
    Workflow.startTime w' = Workflow.startTime w) ∨
   (Workflow.startTime w' = eventTime event ∧
    Workflow.endTime w' = Workflow.endTime w ∧
    Workflow.status w' = Workflow.status w)).

(** What an update in place does to an activity span: a scheduled span is
    started, or an open span is closed. *)
Definition activityTouched (event : Event) (a a' : Activity.t) : Prop :=
  Activity.activityId a' = Activity.activityId a ∧
  Activity.workflowId a' = Activity.workflowId a ∧
  Activity.relatedEventIds a' = Activity.relatedEventIds a ++ [eventId event] ∧
  ((Activity.status a = SCHEDULED ∧
    Activity.status a' = STARTED ∧
    Activity.startTime a' = Some (eventTime event) ∧
    Activity.endTime a' = Activity.endTime a) ∨
   ((Activity.status a = SCHEDULED ∨ Activity.status a = STARTED) ∧
    isTerminal (Activity.status a') = true ∧
    Activity.endTime a' = Some (eventTime event) ∧
    Activity.startTime a' = Activity.startTime a)).

(** The states that one event can lead to, by what the event does. *)
Inductive StepEffect (st : ParseState) (event : Event) : ParseState → Prop :=
  | effect_none : StepEffect st event st
  | effect_pop :
      StepEffect st event
        {| chronologicalList := chronologicalList st;
           workflowMap := workflowMap st;
           activityMap := activityMap st;
           workflowStack := stackPop (workflowStack st) |}
  | effect_workflow_added (w : Workflow.t) (pushed : bool) :
      Workflow.relatedEventIds w = [eventId event] →
      Workflow.endTime w = None →
      Workflow.status w = RUNNING →
      (Workflow.type w = childWorkflow →
       workflowMap st !! Workflow.workflowId w = None) →
      StepEffect st event
        {| chronologicalList := chronologicalList st ++ [ItemWorkflow w];
           workflowMap :=
             <[Workflow.workflowId w := length (chronologicalList st)]>
               (workflowMap st);
           activityMap := activityMap st;
           workflowStack :=
             if pushed then workflowStack st ++ [Workflow.workflowId w]
             else workflowStack st |}
  | effect_activity_added (a : Activity.t) (key : string) :
      stackTop (workflowStack st) = Some (Activity.workflowId a) →
      Activity.workflowId a ≠ "" →
      Activity.relatedEventIds a = [eventId event] →
      Activity.status a = SCHEDULED →
      Activity.startTime a = None →
      Activity.endTime a = None →
      StepEffect st event
        {| chronologicalList := chronologicalList st ++ [ItemActivity a];
           workflowMap := workflowMap st;
           activityMap := <[key := length (chronologicalList st)]> (activityMap st);
           workflowStack := workflowStack st |}
  | effect_workflow_touched (k : string) (ref : nat)
        (g : Workflow.t → Workflow.t) (popped : bool) :
      workflowMap st !! k = Some ref →
      (∀ w, workflowTouched event w (g w)) →
      StepEffect st event
        {| chronologicalList := alter (onWorkflow g) ref (chronologicalList st);
           workflowMap := workflowMap st;
           activityMap := activityMap st;
           workflowStack :=
             if popped then stackPop (workflowStack st) else workflowStack st |}
  | effect_activity_touched (i : nat) (a a' : Activity.t) :
      chronologicalList st !! i = Some (ItemActivity a) →
      stackTop (workflowStack st) = Some (Activity.workflowId a) →
      activityTouched event a a' →
      StepEffect st event
        (setItems st (<[i := ItemActivity a']> (chronologicalList st))).

(** ** Invariants of the parser state *)

(** Every entry of [workflowMap] refers to a workflow item that has the
    entry's key as identifier, and every identifier on the scope stack has an
    entry. *)
Definition wellRegistered (st : ParseState) : Prop :=
  (∀ k ref, workflowMap st !! k = Some ref →
            ∃ w, chronologicalList st !! ref = Some (ItemWorkflow w) ∧
                 Workflow.workflowId w = k) ∧
  Forall (λ k, is_Some (workflowMap st !! k)) (workflowStack st).

(** The status of an item agrees with the times it has. *)
Definition statusFits (item : ChronologicalItem) : Prop :=
  match item with
  | ItemWorkflow w =>
      (Workflow.status w = RUNNING ∧ Workflow.endTime w = None) ∨
      (isTerminal (Workflow.status w) = true ∧ is_Some (Workflow.endTime w))
  | ItemActivity a =>
      (Activity.status a = SCHEDULED ∧ Activity.startTime a = None ∧
       Activity.endTime a = None) ∨
      (Activity.status a = STARTED ∧ is_Some (Activity.startTime a) ∧
       Activity.endTime a = None) ∨
      (isTerminal (Activity.status a) = true ∧ is_Some (Activity.endTime a))
  end.

(** Every activity item comes after a workflow item of its owner. *)
Definition ownersPrecede (items : list ChronologicalItem) : Prop :=
  ∀ i a, items !! i = Some (ItemActivity a) →
         Activity.workflowId a ≠ "" ∧
         ∃ j w, j < i ∧ items !! j = Some (ItemWorkflow w) ∧
                Workflow.workflowId w = Activity.workflowId a.

(** The identifiers of the child workflow items are distinct and all
    registered. *)
Definition childrenDistinct (st : ParseState) : Prop :=
  NoDup (childIds (chronologicalList st)) ∧
  ∀ k, k ∈ childIds (chronologicalList st) → is_Some (workflowMap st !! k).

(** ** Events without effect *)

(** The events that the [switch] skips: a kind it does not know, or a kind
    whose attributes it needs and that come without them. *)
Definition isIgnored (event : Event) : bool :=
  match eventType event with
  | OTHER_EVENT_TYPE _ => true
  | WORKFLOW_EXECUTION_STARTED =>
      bool_decide (workflowExecutionStartedEventAttributes event = None)
  | ACTIVITY_TASK_SCHEDULED =>
      bool_decide (activityTaskScheduledEventAttributes event = None)
  | ACTIVITY_TASK_STARTED =>
      bool_decide (activityTaskStartedEventAttributes event = None)
  | CHILD_WORKFLOW_EXECUTION_COMPLETED =>
      bool_decide (childWorkflowExecutionCompletedEventAttributes event
                     ≫= ChildCompletedAttrs.workflowExecution = None)
  | CHILD_WORKFLOW_EXECUTION_STARTED =>
      bool_decide (childWorkflowExecutionStartedEventAttributes event
                     ≫= ChildStartedAttrs.workflowExecution = None)
  | START_CHILD_WORKFLOW_EXECUTION_INITIATED =>
      bool_decide (startChildWorkflowExecutionInitiatedEventAttributes event = None)
  | _ => false
  end.

(** ** Outcomes of the fetches *)




(** ** Event identifiers recorded in the items *)

(** The item records at least one event, and the events it records are
    among [seen], in the order of [seen]. *)
Definition idsWithin (seen : list EventId) (item : ChronologicalItem) : Prop :=
  itemRelatedEventIds item ≠ [] ∧ itemRelatedEventIds item `sublist_of` seen.

(** All the event identifiers that the items record, item after item. *)
Definition recordedEventIds (items : list ChronologicalItem) : list EventId :=
  concat (itemRelatedEventIds <$> items).

(** ** Events of activities *)

Definition isActivityEvent (ty : EventType) : bool :=
  match ty with
  | ACTIVITY_TASK_SCHEDULED | ACTIVITY_TASK_STARTED => true
  | _ => isActivityClosing ty
  end.


(** * Properties *)

(** ** The backward scan and in-place updates *)

Section Scan.
Context (p : ChronologicalItem → bool) (l : list ChronologicalItem).

Lemma scanBackward_Some n i :
  scanBackward p l n = Some i →
  i < n ∧ (∃ item, l !! i = Some item ∧ p item = true) ∧
  ∀ j item, i < j < n → l !! j = Some item → p item = false.
Proof.
  induction n as [|n IH]; simpl; [discriminate|].
  destruct (l !! n) as [item|] eqn:Hn.
  - destruct (p item) eqn:Hp.
    + intros [= <-]. split; [lia|]. split; [eauto|]. intros j item' Hj. lia.
    + intros H. destruct (IH H) as (Hlt & Hex & Hlater).
      split; [lia|]. split; [exact Hex|].
      intros j item' Hj Hl. destruct (decide (j = n)) as [->|Hne].
      * congruence.
      * apply (Hlater j); [lia|exact Hl].
  - intros H. destruct (IH H) as (Hlt & Hex & Hlater).
    split; [lia|]. split; [exact Hex|].
    intros j item' Hj Hl. destruct (decide (j = n)) as [->|Hne].
    + congruence.
    + apply (Hlater j); [lia|exact Hl].
Qed.

Lemma scanBackward_None n :
  scanBackward p l n = None →
  ∀ j item, j < n → l !! j = Some item → p item = false.
Proof.
  induction n as [|n IH]; simpl; [intros _ j item Hj; lia|].
  destruct (l !! n) as [item|] eqn:Hn.
  - destruct (p item) eqn:Hp; [discriminate|].
    intros H j item' Hj Hl. destruct (decide (j = n)) as [->|Hne].
    + congruence.
    + apply (IH H j); [lia|exact Hl].
  - intros H j item' Hj Hl. destruct (decide (j = n)) as [->|Hne].
    + congruence.
    + apply (IH H j); [lia|exact Hl].
Qed.

(** The scan finds the last item that satisfies the test. *)
Lemma scanBackward_last i item :
  l !! i = Some item → p item = true →
  (∀ j item', i < j → l !! j = Some item' → p item' = false) →
  scanBackward p l (length l) = Some i.
Proof.
  intros Hi Hp Hlater.
  pose proof (lookup_lt_Some _ _ _ Hi) as Hlt.
  destruct (scanBackward p l (length l)) as [k|] eqn:Hscan.
  - destruct (scanBackward_Some _ _ Hscan) as (Hk & (item' & Hk' & Hpk) & Hafter).
    destruct (Nat.lt_trichotomy i k) as [Hlt'|[->|Hgt]]; [|reflexivity|].
    + rewrite (Hlater k item' Hlt' Hk') in Hpk. discriminate.
    + rewrite (Hafter i item (conj Hgt Hlt) Hi) in Hp. discriminate.
  - rewrite (scanBackward_None _ Hscan i item Hlt Hi) in Hp. discriminate.
Qed.

Lemma scanBackward_nowhere :
  (∀ item, item ∈ l → p item = false) →
  scanBackward p l (length l) = None.
Proof.
  intros Hall.
  destruct (scanBackward p l (length l)) as [k|] eqn:Hscan; [|reflexivity].
  destruct (scanBackward_Some _ _ Hscan) as (_ & (item & Hk & Hp) & _).
  rewrite (Hall item) in Hp; [discriminate|].
  apply list_elem_of_lookup. eauto.
Qed.
End Scan.

Lemma alter_at {A} (f : A → A) (l : list A) i x :
  l !! i = Some x → alter f i l = <[i := f x]> l.
Proof.
  revert i. induction l as [|y l IH]; intros [|i] H; simpl in *;
    try discriminate.
  - injection H as ->. reflexivity.
  - f_equal. apply IH. exact H.
Qed.

Lemma stackTop_snoc s k : stackTop (s ++ [k]) = Some k.
Proof. apply last_snoc. Qed.

Lemma stackPop_snoc s k : stackPop (s ++ [k]) = s.
Proof.
  unfold stackPop. apply take_app_length'.
  rewrite length_app. simpl. lia.
Qed.

Lemma step_workflow_closing st event :
  isWorkflowClosing (eventType event) = true →
  step st event = onWorkflowExecutionClosed st event.
Proof. unfold step. destruct (eventType event); simpl; congruence. Qed.

Lemma step_activity_closing st event :
  isActivityClosing (eventType event) = true →
  step st event = onActivityTaskClosed st event.
Proof. unfold step. destruct (eventType event); simpl; congruence. Qed.

(** ** Placeholder of an initiated child workflow *)

(** A name is absent for the registry test exactly when the registry has
    no own key of that name and plain objects do not inherit it. *)
Lemma keyIn_false (m : gmap string nat) k :
  keyIn m k = false ↔ m !! k = None ∧ inheritedName k = false.
Proof.
  unfold keyIn. rewrite orb_false_iff, bool_decide_eq_false.
  rewrite <- eq_None_not_Some. reflexivity.
Qed.

(** An own key is present for the registry test. *)
Lemma keyIn_own (m : gmap string nat) k ref :
  m !! k = Some ref → keyIn m k = true.
Proof.
  intros Hk. unfold keyIn. rewrite bool_decide_eq_true_2; [reflexivity|].
  by exists ref.
Qed.



(** ** Closing events of workflows *)

(** C4, counterexample. A closing event met with an empty scope stack
    removes no entry: the stack has as many entries after as before. *)
Lemma closing_on_empty_stack_removes_nothing :
  workflowStack initialState = [] ∧
  length (workflowStack initialState)
    ≠ S (length (workflowStack
                   (step initialState
                      (Sample.bare 1 10 WORKFLOW_EXECUTION_COMPLETED)))).
Proof. split; [reflexivity|]. simpl. lia. Qed.

(** C4, amended. A closing event of a workflow removes the top entry of a
    non-empty scope stack, whether or not a span is registered for that
    entry; when one is, its end time is set, the event identifier appended
    and its status set by the kind of the event, and when none is the list
    is left as it was. An empty scope stack stays empty; the span looked up
    is then the one registered under the name [undefined]: if there is one
    it is closed in the same way, and if there is none the list is left as
    it was. The registry is never changed. *)
Theorem closing_pops_the_scope st event :
  isWorkflowClosing (eventType event) = true →
  (∀ below top,
     workflowStack st = below ++ [top] →
     workflowStack (step st event) = below ∧
     (∀ ref w,
        workflowMap st !! top = Some ref →
        chronologicalList st !! ref = Some (ItemWorkflow w) →
        chronologicalList (step st event)
          = <[ref := ItemWorkflow (workflowAfterClosing event w)]>
              (chronologicalList st)) ∧
     (workflowMap st !! top = None →
      chronologicalList (step st event) = chronologicalList st)) ∧
  (workflowStack st = [] →
   workflowStack (step st event) = [] ∧
   (∀ ref w,
      workflowMap st !! "undefined" = Some ref →
      chronologicalList st !! ref = Some (ItemWorkflow w) →
      chronologicalList (step st event)
        = <[ref := ItemWorkflow (workflowAfterClosing event w)]>
            (chronologicalList st)) ∧
   (workflowMap st !! "undefined" = None →
    chronologicalList (step st event) = chronologicalList st)) ∧
  workflowMap (step st event) = workflowMap st.
Proof.
  intros Hty. rewrite (step_workflow_closing _ _ Hty).
  unfold onWorkflowExecutionClosed. cbn zeta.
  assert (Hfound : ∀ ref w,
            chronologicalList st !! ref = Some (ItemWorkflow w) →
            alter (onWorkflow
                     (λ wf, Workflow.set_status
                              (workflowTerminalStatus (eventType event)
                                 (Workflow.status wf))
                              (Workflow.push_relatedEventId (eventId event)
                                 (Workflow.set_endTime (eventTime event) wf))))
              ref (chronologicalList st)
            = <[ref := ItemWorkflow (workflowAfterClosing event w)]>
                (chronologicalList st)).
  { intros ref w Hitem. rewrite (alter_at _ _ _ _ Hitem). simpl.
    unfold workflowAfterClosing, Workflow.set_status,
      Workflow.push_relatedEventId, Workflow.set_endTime. simpl.
    destruct (eventType event); simpl in *; congruence. }
  split; [|split].
  - intros below top Hstack. rewrite Hstack, stackTop_snoc, stackPop_snoc.
    simpl. split; [reflexivity|]. split.
    + intros ref w Hmap Hitem. rewrite Hmap. by apply Hfound.
    + intros Hmap. rewrite Hmap. reflexivity.
  - intros ->. simpl. split; [reflexivity|]. split.
    + intros ref w Hmap Hitem. rewrite Hmap. by apply Hfound.
    + intros Hmap. rewrite Hmap. reflexivity.
  - reflexivity.
Qed.

(** WorkflowExecutionFailed on a lone running root: the stack is emptied and
    the root span is FAILED. *)
Lemma closing_pops_the_scope_witness :
  workflowStack (step Scenario.rootOnly
                   (Sample.bare 2 20 WORKFLOW_EXECUTION_FAILED)) = [] ∧
  (itemStatus <$> chronologicalList
     (step Scenario.rootOnly (Sample.bare 2 20 WORKFLOW_EXECUTION_FAILED)) !! 0)
    = Some FAILED.
Proof.
  destruct (closing_pops_the_scope Scenario.rootOnly
              (Sample.bare 2 20 WORKFLOW_EXECUTION_FAILED) eq_refl)
    as [Hpop _].
  destruct (Hpop [] "wfA" eq_refl) as (Hstack & Hfound & _).
  split; [exact Hstack|].
  rewrite (Hfound 0 _ eq_refl eq_refl). reflexivity.
Defined.

(** ** Resolution of activity events *)

Lemma openFor_started owner item :
  openFor ACTIVITY_TASK_STARTED owner item
  ↔ isScheduledActivityOf owner item = true.
Proof.
  unfold openFor, isScheduledActivityOf. split.
  - intros (a & -> & Howner & [Hst|[Hne _]]); [|congruence].
    rewrite andb_true_iff, !bool_decide_eq_true. auto.
  - destruct item as [w|a]; [discriminate|].
    rewrite andb_true_iff, !bool_decide_eq_true. intros [Howner Hst].
    exists a. auto.
Qed.

Lemma openFor_closing ty owner item :
  isActivityClosing ty = true →
  openFor ty owner item ↔ isOpenActivityOf owner item = true.
Proof.
  intros Hty. unfold openFor, isOpenActivityOf. split.
  - intros (a & -> & Howner & Hst).
    rewrite andb_true_iff, orb_true_iff, !bool_decide_eq_true. tauto.
  - destruct item as [w|a]; [discriminate|].
    rewrite andb_true_iff, orb_true_iff, !bool_decide_eq_true.
    intros [Howner Hst]. exists a. split; [reflexivity|]. split; [exact Howner|].
    destruct Hst as [Hst|Hst]; [right|left; exact Hst].
    split; [|exact Hst]. intros ->. discriminate.
Qed.

Lemma not_true_false (b : bool) : ¬ b = true → b = false.
Proof. destruct b; congruence. Qed.

Lemma closeActivity_after event a :
  isActivityClosing (eventType event) = true →
  closeActivity event a = activityAfter event a.
Proof.
  unfold closeActivity, activityAfter, activityNewStatus.
  destruct (eventType event); try discriminate; intros _;
    destruct (completedPayloads event); reflexivity.
Qed.

(** C1, counterexample. With the activities "1" and "2" of one workflow both
    scheduled, the open span of the pair (workflow, "1") is the item at
    index 1; an ActivityTaskStarted event leaves that item as it is and
    starts the item at index 2, the span of activity "2". *)
Lemma started_event_ignores_activity_identifier :
  mostRecentIndex
    (matchesPair ACTIVITY_TASK_STARTED
       (stackTop (workflowStack Scenario.twoScheduled)) "1")
    (chronologicalList Scenario.twoScheduled) = Some 1 ∧
  chronologicalList (step Scenario.twoScheduled (Sample.activityStarted 4 40)) !! 1
    = chronologicalList Scenario.twoScheduled !! 1 ∧
  (itemStatus <$> chronologicalList Scenario.twoScheduled !! 2) = Some SCHEDULED ∧
  (itemStatus <$> chronologicalList
     (step Scenario.twoScheduled (Sample.activityStarted 4 40)) !! 2)
    = Some STARTED.
Proof. vm_compute. repeat split. Qed.

(** C1, amended. An ActivityTaskStarted event that carries its attributes,
    and each ActivityTaskCompleted/Failed/TimedOut/Canceled event, is
    resolved to the most recently created activity span that is owned by the
    workflow on top of the scope stack and is still open (scheduled for
    Started; scheduled or started for the closing kinds), whatever its
    activity identifier: that span is updated in place and nothing else
    changes. When there is no such span the event changes nothing. *)
Theorem activity_event_resolves_latest_open_of_owner st event :
  (eventType event = ACTIVITY_TASK_STARTED ∧
   is_Some (activityTaskStartedEventAttributes event)) ∨
  isActivityClosing (eventType event) = true →
  (∀ i a,
     chronologicalList st !! i = Some (ItemActivity a) →
     openFor (eventType event) (stackTop (workflowStack st)) (ItemActivity a) →
     (∀ j item, i < j → chronologicalList st !! j = Some item →
                ¬ openFor (eventType event) (stackTop (workflowStack st)) item) →
     step st event
       = setItems st (<[i := ItemActivity (activityAfter event a)]>
                        (chronologicalList st))) ∧
  ((∀ item, item ∈ chronologicalList st →
            ¬ openFor (eventType event) (stackTop (workflowStack st)) item) →
   step st event = st).
Proof.
  intros [[Hty [attrs Hattrs]]|Hty].
  - assert (Hstep : step st event = onActivityTaskStarted st event)
      by (unfold step; rewrite Hty; reflexivity).
    rewrite Hstep, Hty. unfold onActivityTaskStarted. rewrite Hattrs. split.
    + intros i a Hi Hopen Hlater.
      rewrite (scanBackward_last _ _ i (ItemActivity a) Hi).
      * rewrite (alter_at _ _ _ _ Hi). simpl.
        unfold activityAfter. rewrite Hty. reflexivity.
      * apply openFor_started. exact Hopen.
      * intros j item Hj Hl. apply not_true_false.
        rewrite <- openFor_started. eauto.
    + intros Hnone. rewrite scanBackward_nowhere; [reflexivity|].
      intros item Hin. apply not_true_false.
      rewrite <- openFor_started. eauto.
  - rewrite (step_activity_closing _ _ Hty). unfold onActivityTaskClosed. split.
    + intros i a Hi Hopen Hlater.
      rewrite (scanBackward_last _ _ i (ItemActivity a) Hi).
      * rewrite (alter_at _ _ _ _ Hi). simpl.
        rewrite (closeActivity_after _ _ Hty). reflexivity.
      * apply (openFor_closing _ _ _ Hty). exact Hopen.
      * intros j item Hj Hl. apply not_true_false.
        rewrite <- (openFor_closing _ _ _ Hty). eauto.
    + intros Hnone. rewrite scanBackward_nowhere; [reflexivity|].
      intros item Hin. apply not_true_false.
      rewrite <- (openFor_closing _ _ _ Hty). eauto.
Qed.

(** With the activities "1" and "2" scheduled, ActivityTaskStarted goes to
    the span at index 2, the one of activity "2". *)
Lemma activity_event_resolves_latest_open_of_owner_witness :
  ∃ a,
    chronologicalList Scenario.twoScheduled !! 2 = Some (ItemActivity a) ∧
    Activity.activityId a = "2" ∧
    step Scenario.twoScheduled (Sample.activityStarted 4 40)
      = setItems Scenario.twoScheduled
          (<[2 := ItemActivity (activityAfter (Sample.activityStarted 4 40) a)]>
             (chronologicalList Scenario.twoScheduled)).
Proof.
  destruct (activity_event_resolves_latest_open_of_owner Scenario.twoScheduled
              (Sample.activityStarted 4 40)) as [Hres _].
  - left. split; [reflexivity|]. eexists. reflexivity.
  - eexists. split; [reflexivity|]. split; [reflexivity|].
    apply Hres.
    + reflexivity.
    + eexists. split; [reflexivity|]. split; [reflexivity|].
      left. reflexivity.
    + intros j item Hj Hl. apply lookup_lt_Some in Hl.
      vm_compute in Hl. lia.
Defined.

(** ** How one event changes the output list *)

#[local] Instance laterVersion_refl : Reflexive laterVersion.
Proof. intros [w|a]; simpl; repeat split; auto. Qed.

#[local] Instance laterVersion_trans : Transitive laterVersion.
Proof.
  intros [w1|a1] [w2|a2] [w3|a3]; simpl; try tauto.
  - intros (-> & -> & Hp & He & Ht) (-> & -> & Hp' & He' & Ht').
    repeat split; auto. by etrans.
  - intros (-> & -> & -> & -> & Hp & He & Ht)
           (-> & -> & -> & -> & Hp' & He' & Ht').
    repeat split; auto. by etrans.
Qed.

Lemma Forall2_laterVersion_refl l : Forall2 laterVersion l l.
Proof. induction l; constructor; [reflexivity|assumption]. Qed.


Lemma alter_laterVersion f i l :
  (∀ x, l !! i = Some x → laterVersion x (f x)) →
  Forall2 laterVersion l (alter f i l).
Proof.
  revert i. induction l as [|y l IH]; intros [|i] H; simpl.
  - constructor.
  - constructor.
  - constructor; [apply H; reflexivity|apply Forall2_laterVersion_refl].
  - constructor; [reflexivity|]. apply IH. intros x Hx. apply H. exact Hx.
Qed.

Lemma onWorkflow_laterVersion g x :
  (∀ w, laterVersion (ItemWorkflow w) (ItemWorkflow (g w))) →
  laterVersion x (onWorkflow g x).
Proof. intros H. destruct x as [w|a]; [apply H|reflexivity]. Qed.

Lemma prefix_snoc_self {A} (l : list A) x : l `prefix_of` l ++ [x].
Proof. by exists [x]. Qed.

Lemma workflowTerminalStatus_terminal ty old :
  isTerminal old = true → isTerminal (workflowTerminalStatus ty old) = true.
Proof. destruct ty; simpl; auto. Qed.

Lemma activityNewStatus_terminal ty old :
  isTerminal old = true → isTerminal (activityNewStatus ty old) = true.
Proof. destruct ty; simpl; auto. Qed.

Lemma closeActivity_laterVersion event a :
  laterVersion (ItemActivity a) (ItemActivity (closeActivity event a)).
Proof.
  unfold closeActivity.
  destruct (eventType event), (completedPayloads event); simpl;
    repeat split; auto using prefix_snoc_self, activityNewStatus_terminal.
Qed.

(** The three shapes of a step: it updates items in place, it appends an
    activity span, or it appends and registers a workflow span. *)
Lemma step_shape st event :
  (workflowMap (step st event) = workflowMap st ∧
   Forall2 laterVersion (chronologicalList st) (chronologicalList (step st event)))
  ∨ (∃ a,
       chronologicalList (step st event)
         = chronologicalList st ++ [ItemActivity a] ∧
       workflowMap (step st event) = workflowMap st ∧
       Activity.relatedEventIds a = [eventId event])
  ∨ (∃ w,
       chronologicalList (step st event)
         = chronologicalList st ++ [ItemWorkflow w] ∧
       workflowMap (step st event)
         = <[Workflow.workflowId w := length (chronologicalList st)]>
             (workflowMap st) ∧
       Workflow.relatedEventIds w = [eventId event] ∧
       (freshStart st event = true →
        workflowMap st !! Workflow.workflowId w = None)).
Proof.
  assert (Hsame : ∀ st' : ParseState, st' = st →
            (workflowMap st' = workflowMap st ∧
             Forall2 laterVersion (chronologicalList st) (chronologicalList st'))).
  { intros st' ->. split; [reflexivity|apply Forall2_laterVersion_refl]. }
  destruct (isWorkflowClosing (eventType event)) eqn:Hwc.
  { left. rewrite (step_workflow_closing _ _ Hwc).
    unfold onWorkflowExecutionClosed. simpl. split; [reflexivity|].
    destruct (workflowMap st !! _); [|apply Forall2_laterVersion_refl].
    apply alter_laterVersion. intros x _. apply onWorkflow_laterVersion.
    intros w. simpl.
    repeat split; auto using prefix_snoc_self, workflowTerminalStatus_terminal. }
  destruct (isActivityClosing (eventType event)) eqn:Hac.
  { left. rewrite (step_activity_closing _ _ Hac).
    unfold onActivityTaskClosed.
    destruct (scanBackward _ _ _) as [i|]; [|by apply Hsame].
    simpl. split; [reflexivity|]. apply alter_laterVersion. intros x _.
    destruct x as [w|a]; [reflexivity|apply closeActivity_laterVersion]. }
  unfold step, freshStart.
  destruct (eventType event) eqn:Hty; try discriminate.
  - (* WorkflowExecutionStarted *)
    unfold onWorkflowExecutionStarted.
    destruct (workflowExecutionStartedEventAttributes event) as [attrs|];
      [|left; by apply Hsame].
    right; right. eexists. simpl. repeat split.
    intros H. by apply bool_decide_eq_true in H.
  - (* ActivityTaskScheduled *)
    unfold onActivityTaskScheduled.
    destruct (activityTaskScheduledEventAttributes event) as [attrs|];
      [|left; by apply Hsame].
    destruct (stackTop (workflowStack st)) as [owner|]; [|left; by apply Hsame].
    destruct (truthy (Some owner)); [|left; by apply Hsame].
    right; left. eexists. simpl. repeat split.
  - (* ActivityTaskStarted *)
    left. unfold onActivityTaskStarted.
    destruct (activityTaskStartedEventAttributes event) as [attrs|];
      [|by apply Hsame].
    destruct (scanBackward _ _ _) as [i|] eqn:Hscan; [|by apply Hsame].
    simpl. split; [reflexivity|].
    destruct (scanBackward_Some _ _ _ _ Hscan) as (_ & (item & Hi & Hp) & _).
    apply alter_laterVersion. intros x Hx.
    assert (x = item) as -> by congruence.
    destruct item as [w|act]; [discriminate|]. simpl in *.
    apply andb_true_iff in Hp as [_ Hs]. apply bool_decide_eq_true in Hs.
    rewrite Hs. repeat split; auto using prefix_snoc_self; discriminate.
  - (* ChildWorkflowExecutionCompleted *)
    left. unfold onChildWorkflowExecutionCompleted.
    destruct (_ ≫= _) as [exec|]; [|by apply Hsame].
    destruct (workflowMap st !! _); [|by apply Hsame].
    simpl. split; [reflexivity|].
    apply alter_laterVersion. intros x _. apply onWorkflow_laterVersion.
    intros w. simpl. repeat split; auto using prefix_snoc_self.
  - (* ChildWorkflowExecutionStarted *)
    unfold onChildWorkflowExecutionStarted.
    destruct (childWorkflowExecutionStartedEventAttributes event) as [attrs|];
      [|left; by apply Hsame].
    destruct (ChildStartedAttrs.workflowExecution attrs) as [exec|];
      [|left; by apply Hsame].
    destruct (keyIn (workflowMap st) _) eqn:Hin.
    + destruct (workflowMap st !! _) eqn:Hmap; [|left; by apply Hsame].
      left. simpl. split; [reflexivity|].
      apply alter_laterVersion. intros x _. apply onWorkflow_laterVersion.
      intros w. simpl. repeat split; auto using prefix_snoc_self.
    + apply keyIn_false in Hin as [Hmap _].
      right; right. eexists. simpl. repeat split. intros _. exact Hmap.
  - (* StartChildWorkflowExecutionInitiated *)
    unfold onStartChildWorkflowExecutionInitiated.
    destruct (startChildWorkflowExecutionInitiatedEventAttributes event)
      as [attrs|]; [|left; by apply Hsame].
    destruct (keyIn (workflowMap st) _) eqn:Hin.
    + destruct (workflowMap st !! _) eqn:Hmap; [|left; by apply Hsame].
      left. simpl. split; [reflexivity|].
      apply alter_laterVersion. intros x _. apply onWorkflow_laterVersion.
      intros w. simpl. repeat split; auto using prefix_snoc_self.
    + apply keyIn_false in Hin as [Hmap _].
      right; right. eexists. simpl. repeat split. intros _. exact Hmap.
  - left. by apply Hsame.
Qed.

Lemma run_app st es1 es2 : run st (es1 ++ es2) = run (run st es1) es2.
Proof. apply foldl_app. Qed.





(** ** Closed workflow spans *)




(** ** One workflow span per identifier *)

Lemma step_registered st event :
  registered st → freshStart st event = true → registered (step st event).
Proof.
  intros Hreg Hfresh.
  destruct (step_shape st event)
    as [[Hmap Hlater]|[(a & Hl & Hmap & _)|(w & Hl & Hmap & _ & Hnew)]];
    intros i w' Hi; rewrite Hmap.
  - destruct (Forall2_lookup_r _ _ _ _ _ Hlater Hi) as (item & Hitem & Hlv).
    destruct item as [w0|a0]; [|contradiction].
    destruct Hlv as (_ & <- & _). by apply Hreg.
  - rewrite Hl in Hi. apply lookup_app_Some in Hi as [Hi|[_ Hi]].
    + by apply Hreg.
    + destruct (i - length (chronologicalList st)) as [|n]; simpl in Hi;
        discriminate.
  - specialize (Hnew Hfresh).
    rewrite Hl in Hi. apply lookup_app_Some in Hi as [Hi|[Hge Hi]].
    + pose proof (Hreg _ _ Hi) as Hold.
      rewrite lookup_insert_ne; [exact Hold|]. intros Heq.
      rewrite Heq, Hold in Hnew. discriminate.
    + destruct (i - length (chronologicalList st)) as [|n] eqn:Hn;
        simpl in Hi; [|destruct n; discriminate].
      injection Hi as ->. rewrite lookup_insert_eq. f_equal. lia.
Qed.

Lemma run_registered es : ∀ st,
  registered st → startsAreFresh st es = true → registered (run st es).
Proof.
  induction es as [|event es IH]; intros st Hreg Hfresh; [exact Hreg|].
  simpl in Hfresh. apply andb_true_iff in Hfresh as [Hev Hrest].
  simpl. apply IH; [by apply step_registered|exact Hrest].
Qed.

Lemma startsAreFresh_app es1 es2 : ∀ st,
  startsAreFresh st (es1 ++ es2) = true → startsAreFresh st es1 = true.
Proof.
  induction es1 as [|event es1 IH]; intros st; [reflexivity|].
  simpl. rewrite !andb_true_iff. intros [Hev Hrest]. split; [exact Hev|].
  by apply IH.
Qed.

Lemma workflowIds_lookup l k :
  k ∈ workflowIds l →
  ∃ i w, l !! i = Some (ItemWorkflow w) ∧ Workflow.workflowId w = k.
Proof.
  unfold workflowIds. rewrite list_elem_of_omap.
  intros (item & Hin & Hk). apply list_elem_of_lookup in Hin as [i Hi].
  destruct item as [w|a]; [|discriminate]. injection Hk as <-. eauto.
Qed.

Lemma workflowIds_NoDup l :
  (∀ i j w w', l !! i = Some (ItemWorkflow w) → l !! j = Some (ItemWorkflow w') →
               Workflow.workflowId w = Workflow.workflowId w' → i = j) →
  NoDup (workflowIds l).
Proof.
  induction l as [|item l IH]; intros Hinj; [constructor|].
  assert (Htail : NoDup (workflowIds l)).
  { apply IH. intros i j w w' Hi Hj Heq.
    assert (S i = S j) by (eapply Hinj; eauto). lia. }
  destruct item as [w|a]; simpl; [|exact Htail].
  constructor; [|exact Htail].
  intros Hin. apply workflowIds_lookup in Hin as (j & w' & Hj & Heq).
  assert (0 = S j) by (eapply (Hinj 0 (S j)); eauto). lia.
Qed.

(** C2, counterexample. Two WorkflowExecutionStarted events that name the
    same workflow leave two workflow spans with that identifier. *)
Lemma second_start_duplicates_the_span :
  ¬ NoDup (workflowIds
             (parseTemporalHistory
                [Sample.workflowStarted 1 10 "wfA";
                 Sample.workflowStarted 2 20 "wfA"])).
Proof.
  change (¬ NoDup ["wfA"; "wfA"]).
  intros H. apply NoDup_cons in H as [Hnotin _]. apply Hnotin. by left.
Qed.

(** C2, amended. For every event sequence in which each
    WorkflowExecutionStarted event names a workflow identifier that is not
    registered when it is processed, the output list holds at most one
    workflow span per workflow identifier, after parsing and after every
    prefix of the sequence. *)
Theorem one_span_per_workflow_identifier es done :
  done `prefix_of` es →
  startsAreFresh initialState es = true →
  NoDup (workflowIds (parseTemporalHistory done)).
Proof.
  intros [rest ->] Hfresh. apply startsAreFresh_app in Hfresh.
  assert (Hreg : registered (run initialState done)).
  { apply run_registered; [|exact Hfresh]. intros i w Hi. discriminate. }
  apply workflowIds_NoDup. intros i j w w' Hi Hj Heq.
  apply Hreg in Hi. apply Hreg in Hj. rewrite Heq in Hi. congruence.
Qed.

(** A root that initiates, starts and completes one child: one span each. *)
Lemma one_span_per_workflow_identifier_witness :
  NoDup (workflowIds
           (parseTemporalHistory
              [Sample.workflowStarted 1 10 "wfA";
               Sample.childInitiated 2 20 "wfB";
               Sample.childStarted 3 30 "wfA" "wfB";
               Sample.childCompleted 4 40 "wfB";
               Sample.bare 5 50 WORKFLOW_EXECUTION_COMPLETED])).
Proof.
  apply (one_span_per_workflow_identifier
           [Sample.workflowStarted 1 10 "wfA";
            Sample.childInitiated 2 20 "wfB";
            Sample.childStarted 3 30 "wfA" "wfB";
            Sample.childCompleted 4 40 "wfB";
            Sample.bare 5 50 WORKFLOW_EXECUTION_COMPLETED]).
  - exists []. reflexivity.
  - vm_compute. reflexivity.
Defined.

(** ** Order of the output *)

















(** ** Start and end times *)

Lemma itemTimely_mono now now' item :
  (now ≤ now')%Z → itemTimely now item → itemTimely now' item.
Proof.
  destruct item as [w|a]; simpl.
  - intros Hle [Hs He]. split; [lia|exact He].
  - intros Hle (Hs & Hse & Hsch). split; [|auto].
    intros s H. specialize (Hs s H). lia.
Qed.

Lemma closing_workflow_timely now (g : Workflow.t → Workflow.t) x :
  (∀ w, Workflow.startTime (g w) = Workflow.startTime w ∧
        Workflow.endTime (g w) = Some now) →
  itemTimely now x → itemTimely now (onWorkflow g x).
Proof.
  intros Hg. destruct x as [w|a]; simpl; [|auto].
  destruct (Hg w) as [-> ->]. intros [Hs _]. split; [exact Hs|].
  intros t [= <-]. exact Hs.
Qed.

Lemma closeActivity_timely event a :
  isActivityClosing (eventType event) = true →
  itemTimely (eventTime event) (ItemActivity a) →
  itemTimely (eventTime event) (ItemActivity (closeActivity event a)).
Proof.
  intros Hty (Hs & Hse & Hsch).
  assert (Hfields :
    Activity.startTime (closeActivity event a) = Activity.startTime a ∧
    Activity.endTime (closeActivity event a) = Some (eventTime event) ∧
    Activity.status (closeActivity event a) ≠ SCHEDULED).
  { unfold closeActivity.
    destruct (eventType event); try discriminate;
      destruct (completedPayloads event); simpl; repeat split; discriminate. }
  destruct Hfields as (Hst & Hen & Hstatus). simpl.
  rewrite Hst, Hen. split; [exact Hs|]. split.
  - intros s t Hstart [= <-]. by apply Hs.
  - intros Hsched. contradiction.
Qed.

Lemma step_timely st event :
  Forall (itemTimely (eventTime event)) (chronologicalList st) →
  restartsClosedSpan st event = false →
  Forall (itemTimely (eventTime event)) (chronologicalList (step st event)).
Proof.
  intros Hall Hno.
  destruct (isWorkflowClosing (eventType event)) eqn:Hwc.
  { rewrite (step_workflow_closing _ _ Hwc).
    unfold onWorkflowExecutionClosed. simpl.
    destruct (workflowMap st !! _); [|exact Hall].
    apply Forall_alter; [exact Hall|]. intros x _.
    apply closing_workflow_timely. intros w. split; reflexivity. }
  destruct (isActivityClosing (eventType event)) eqn:Hac.
  { rewrite (step_activity_closing _ _ Hac).
    unfold onActivityTaskClosed.
    destruct (scanBackward _ _ _); [|exact Hall]. simpl.
    apply Forall_alter; [exact Hall|]. intros x _.
    destruct x as [w|a]; [auto|]. by apply closeActivity_timely. }
  unfold step, restartsClosedSpan, startedChildId in *.
  destruct (eventType event) eqn:Hty; try discriminate.
  - (* WorkflowExecutionStarted *)
    unfold onWorkflowExecutionStarted.
    destruct (workflowExecutionStartedEventAttributes event); [|exact Hall].
    simpl. apply Forall_app. split; [exact Hall|].
    constructor; [|constructor]. simpl. split; [lia|discriminate].
  - (* ActivityTaskScheduled *)
    unfold onActivityTaskScheduled.
    destruct (activityTaskScheduledEventAttributes event); [|exact Hall].
    destruct (stackTop (workflowStack st)) as [owner|]; [|exact Hall].
    destruct (truthy (Some owner)); [|exact Hall].
    simpl. apply Forall_app. split; [exact Hall|].
    constructor; [|constructor]. simpl. repeat split; discriminate.
  - (* ActivityTaskStarted *)
    unfold onActivityTaskStarted.
    destruct (activityTaskStartedEventAttributes event); [|exact Hall].
    destruct (scanBackward _ _ _) as [i|] eqn:Hscan; [|exact Hall].
    simpl. destruct (scanBackward_Some _ _ _ _ Hscan) as (_ & (item & Hi & Hp) & _).
    apply Forall_alter; [exact Hall|]. intros x Hx.
    assert (x = item) as -> by congruence.
    destruct item as [w|act]; [discriminate|]. simpl in *.
    apply andb_true_iff in Hp as [_ Hs]. apply bool_decide_eq_true in Hs.
    intros (_ & _ & Hsch). specialize (Hsch Hs). rewrite Hsch.
    repeat split; try discriminate. intros s [= <-]. lia.
  - (* ChildWorkflowExecutionCompleted *)
    unfold onChildWorkflowExecutionCompleted.
    destruct (_ ≫= _) as [exec|]; [|exact Hall].
    destruct (workflowMap st !! _); [|exact Hall]. simpl.
    apply Forall_alter; [exact Hall|]. intros x _.
    apply closing_workflow_timely. intros w. split; reflexivity.
  - (* ChildWorkflowExecutionStarted *)
    unfold onChildWorkflowExecutionStarted.
    destruct (childWorkflowExecutionStartedEventAttributes event) as [attrs|];
      [|exact Hall].
    simpl in Hno.
    destruct (ChildStartedAttrs.workflowExecution attrs) as [exec|];
      [|exact Hall].
    simpl in Hno.
    destruct (keyIn (workflowMap st) _) eqn:Hin.
    + destruct (workflowMap st !! _) as [ref|] eqn:Hmap; simpl; [|exact Hall].
      apply Forall_alter; [exact Hall|]. intros x Hx Hold. rewrite Hx in Hno.
      destruct x as [w|a]; simpl; [|exact Hold].
      split; [lia|]. intros t Hend. apply bool_decide_eq_false in Hno.
      destruct Hno. rewrite Hend. by eexists.
    + simpl. apply Forall_app. split; [exact Hall|].
      constructor; [|constructor]. simpl. split; [lia|discriminate].
  - (* StartChildWorkflowExecutionInitiated *)
    unfold onStartChildWorkflowExecutionInitiated.
    destruct (startChildWorkflowExecutionInitiatedEventAttributes event)
      as [attrs|]; [|exact Hall].
    simpl in Hno.
    destruct (keyIn (workflowMap st) _) eqn:Hin.
    + destruct (workflowMap st !! _) as [ref|] eqn:Hmap; simpl; [|exact Hall].
      apply Forall_alter; [exact Hall|]. intros x Hx Hold. rewrite Hx in Hno.
      destruct x as [w|a]; simpl; [|exact Hold].
      split; [lia|]. intros t Hend. apply bool_decide_eq_false in Hno.
      destruct Hno. rewrite Hend. by eexists.
    + simpl. apply Forall_app. split; [exact Hall|].
      constructor; [|constructor]. simpl. split; [lia|discriminate].
  - exact Hall.
Qed.

Lemma run_timely es : ∀ st now,
  Forall (itemTimely now) (chronologicalList st) →
  nonDecreasingFrom now es = true →
  neverRestartsClosedSpan st es = true →
  ∃ now', Forall (itemTimely now') (chronologicalList (run st es)).
Proof.
  induction es as [|event es IH]; intros st now Hall Htimes Hno.
  - exists now. exact Hall.
  - simpl in Htimes, Hno.
    apply andb_true_iff in Htimes as [Hle Htimes].
    apply andb_true_iff in Hno as [Hev Hno].
    apply Z.leb_le in Hle. apply negb_true_iff in Hev.
    simpl. apply (IH _ (eventTime event)); [|exact Htimes|exact Hno].
    apply step_timely; [|exact Hev].
    eapply Forall_impl; [exact Hall|].
    intros item. by apply itemTimely_mono.
Qed.

(** C6, counterexample. A child workflow is initiated, started and
    completed, and a child with the same identifier is initiated again: the
    timestamps increase along the sequence, and the span of the child starts
    at 50 and ends at 40. *)
Lemma reinitiated_child_starts_after_its_end :
  timesNonDecreasing
    [Sample.workflowStarted 1 10 "wfA"; Sample.childInitiated 2 20 "wfB";
     Sample.childStarted 3 30 "wfA" "wfB"; Sample.childCompleted 4 40 "wfB";
     Sample.childInitiated 5 50 "wfB"] = true ∧
  (parseTemporalHistory
     [Sample.workflowStarted 1 10 "wfA"; Sample.childInitiated 2 20 "wfB";
      Sample.childStarted 3 30 "wfA" "wfB"; Sample.childCompleted 4 40 "wfB";
      Sample.childInitiated 5 50 "wfB"] !! 1
   ≫= λ item, Some (itemStartTime item, itemEndTime item))
    = Some (Some 50%Z, Some 40%Z).
Proof. split; reflexivity. Qed.

(** C6, amended. For every event sequence whose timestamps never decrease
    and in which no ChildWorkflowExecutionStarted or
    StartChildWorkflowExecutionInitiated event is about a workflow whose
    span already has an end time, every item of the output that has both a
    start time and an end time starts no later than it ends. *)
Theorem start_precedes_end es item s t :
  timesNonDecreasing es = true →
  neverRestartsClosedSpan initialState es = true →
  item ∈ parseTemporalHistory es →
  itemStartTime item = Some s →
  itemEndTime item = Some t →
  (s ≤ t)%Z.
Proof.
  intros Htimes Hno Hin Hs Ht.
  assert (Hall : ∃ now, Forall (itemTimely now) (parseTemporalHistory es)).
  { destruct es as [|event es].
    - exists 0%Z. constructor.
    - apply (run_timely _ initialState (eventTime event));
        [constructor| |exact Hno].
      simpl in Htimes |- *. by rewrite Htimes, Z.leb_refl. }
  destruct Hall as [now Hall].
  rewrite Forall_forall in Hall. specialize (Hall _ Hin).
  destruct item as [w|a]; simpl in *.
  - injection Hs as <-. destruct Hall as [_ Hend]. by apply Hend.
  - destruct Hall as (_ & Hse & _). by apply Hse.
Qed.

(** The activity of a root with one activity starts at 30 and ends at 40. *)
Lemma start_precedes_end_witness :
  ∃ item,
    parseTemporalHistory
      [Sample.workflowStarted 1 10 "wfA";
       Sample.activityScheduled 2 20 "act1";
       Sample.activityStarted 3 30; Sample.activityCompleted 4 40;
       Sample.bare 5 50 WORKFLOW_EXECUTION_COMPLETED] !! 1 = Some item ∧
    itemStartTime item = Some 30%Z ∧
    itemEndTime item = Some 40%Z ∧
    (30 ≤ 40)%Z.
Proof.
  eexists. split; [reflexivity|]. split; [reflexivity|].
  split; [reflexivity|].
  eapply (start_precedes_end
            [Sample.workflowStarted 1 10 "wfA";
             Sample.activityScheduled 2 20 "act1";
             Sample.activityStarted 3 30; Sample.activityCompleted 4 40;
             Sample.bare 5 50 WORKFLOW_EXECUTION_COMPLETED]).
  - reflexivity.
  - vm_compute. reflexivity.
  - apply list_elem_of_lookup. exists 1. reflexivity.
  - reflexivity.
  - reflexivity.
Defined.

(** ** The paginated fetch *)

Section Fetch.
Context (encode : string → string).
Context (upstream : string → list Answer).
Context (this : TemporalService).

(** An answer delivers a page exactly when it is a response with a
    successful status whose body can be read. *)
Lemma pageOf_Some answer data :
  pageOf answer = Some data →
  ∃ response,
    answer = Resolved response ∧ ok response = true ∧ json response = inr data.
Proof.
  destruct answer as [message|response]; simpl; [discriminate|].
  destruct (ok response) eqn:Hok; [|discriminate].
  destruct (json response) as [message|data'] eqn:Hjson; [discriminate|].
  intros [= <-]. by exists response.
Qed.

Lemma continues_page answer :
  continues answer = true →
  ∃ response data,
    answer = Resolved response ∧ ok response = true ∧
    json response = inr data ∧ pageOf answer = Some data ∧
    truthy (HistoryResponse.nextPageToken data) = true.
Proof.
  unfold continues. destruct (pageOf answer) as [data|] eqn:Hpage;
    [|discriminate].
  intros Htoken. destruct (pageOf_Some _ _ Hpage) as (response & -> & Hok & Hjson).
  by exists response, data.
Qed.

Lemma isLastPage_page answer :
  isLastPage answer = true →
  ∃ response data,
    answer = Resolved response ∧ ok response = true ∧
    json response = inr data ∧ pageOf answer = Some data ∧
    truthy (HistoryResponse.nextPageToken data) = false.
Proof.
  unfold isLastPage. destruct (pageOf answer) as [data|] eqn:Hpage;
    [|discriminate].
  intros Htoken. apply negb_true_iff in Htoken.
  destruct (pageOf_Some _ _ Hpage) as (response & -> & Hok & Hjson).
  by exists response, data.
Qed.

Lemma requestUrl_continues baseUrl answer data :
  pageOf answer = Some data →
  truthy (HistoryResponse.nextPageToken data) = true →
  requestUrl encode baseUrl (HistoryResponse.nextPageToken data)
    = nextUrl encode baseUrl answer.
Proof.
  unfold nextUrl, pageToken, requestUrl. intros -> Htoken. simpl.
  destruct (HistoryResponse.nextPageToken data) as [token|];
    [|discriminate].
  by rewrite Htoken.
Qed.

Lemma url_request (urls : list string) : url <$> (request this <$> urls) = urls.
Proof.
  induction urls as [|u urls IH]; [reflexivity|].
  rewrite !fmap_cons. f_equal. exact IH.
Qed.

(** As long as the pages continue, the loop goes on to the next answer. *)
Lemma fetchLoop_continues baseUrl pages : ∀ rest token allEvents requests,
  Forall (λ response, continues response = true) pages →
  ∃ token' requests',
    fetchLoop encode this baseUrl (pages ++ rest) token allEvents requests
      = fetchLoop encode this baseUrl rest token'
          (allEvents ++ concat (pageEvents <$> pages)) requests' ∧
    requests' ++ [request this (requestUrl encode baseUrl token')]
      = requests
        ++ (request this
              <$> requestUrl encode baseUrl token
                  :: (nextUrl encode baseUrl <$> pages)).
Proof.
  induction pages as [|answer pages IH]; intros rest token allEvents requests Hc.
  - exists token, requests. simpl. by rewrite app_nil_r.
  - inversion Hc as [|? ? Hr Hpages]; subst.
    destruct (continues_page _ Hr)
      as (response & data & -> & Hok & Hjson & Hpage & Htoken).
    assert (Hev : pageEvents (Resolved response)
                  = events (HistoryResponse.history data)).
    { unfold pageEvents. by rewrite Hpage. }
    destruct (IH rest (HistoryResponse.nextPageToken data)
                (allEvents ++ pageEvents (Resolved response))
                (requests ++ [request this (requestUrl encode baseUrl token)])
                Hpages)
      as (token' & requests' & Hloop & Hreqs).
    exists token', requests'. split.
    + rewrite <- app_comm_cons. cbn [fetchLoop].
      rewrite Hok, Hjson, Htoken. cbn [negb].
      rewrite <- Hev, Hloop, fmap_cons. cbn [concat].
      by rewrite <- app_assoc.
    + rewrite Hreqs, (requestUrl_continues _ _ _ Hpage Htoken), <- app_assoc.
      reflexivity.
Qed.

Lemma fetchLoop_paged baseUrl pages final token allEvents requests :
  Forall (λ response, continues response = true) pages →
  isLastPage final = true →
  fetchLoop encode this baseUrl (pages ++ [final]) token allEvents requests
    = (requests
       ++ (request this
             <$> requestUrl encode baseUrl token
                 :: (nextUrl encode baseUrl <$> pages)),
       Returned (allEvents ++ concat (pageEvents <$> pages ++ [final]))).
Proof.
  intros Hpages Hfinal.
  destruct (fetchLoop_continues baseUrl pages [final] token allEvents
              requests Hpages) as (token' & requests' & -> & <-).
  destruct (isLastPage_page _ Hfinal)
    as (response & data & -> & Hok & Hjson & Hpage & Hlast).
  assert (Hev : pageEvents (Resolved response)
                = events (HistoryResponse.history data)).
  { unfold pageEvents. by rewrite Hpage. }
  cbn [fetchLoop]. rewrite Hok, Hjson, Hlast. cbn [negb].
  rewrite fmap_app, concat_app, <- app_assoc, <- Hev.
  cbn [fmap list_fmap concat]. by rewrite app_nil_r.
Qed.

Lemma fetchLoop_fails baseUrl pages bad rest token allEvents requests :
  Forall (λ response, continues response = true) pages →
  ok bad = false →
  fetchLoop encode this baseUrl (pages ++ Resolved bad :: rest) token
    allEvents requests
    = (requests
       ++ (request this
             <$> requestUrl encode baseUrl token
                 :: (nextUrl encode baseUrl <$> pages)),
       Thrown (Error (failureMessage bad))).
Proof.
  intros Hpages Hbad.
  destruct (fetchLoop_continues baseUrl pages (Resolved bad :: rest) token
              allEvents requests Hpages) as (token' & requests' & -> & <-).
  cbn [fetchLoop]. by rewrite Hbad.
Qed.

(** C8. When the upstream answers with a sequence of pages of which all
    but the last carry a continuation token (a non-empty string) and the
    last carries none, the fetch returns the events of all the pages,
    concatenated in page order; it issues one request per page, the first
    without a token and each next one with the token of the previous
    page. *)
Theorem fetch_concatenates_pages namespace workflowId pages final :
  upstream (historyUrl this namespace workflowId) = pages ++ [final] →
  Forall (λ response, continues response = true) pages →
  isLastPage final = true →
  getWorkflowData encode upstream this namespace workflowId
    = Returned (concat (pageEvents <$> pages ++ [final])) ∧
  url <$> (getWorkflowDataTraced encode upstream this namespace workflowId).1
    = historyUrl this namespace workflowId
      :: (nextUrl encode (historyUrl this namespace workflowId) <$> pages).
Proof.
  intros Hup Hpages Hfinal.
  unfold getWorkflowData, getWorkflowDataTraced. rewrite Hup.
  rewrite (fetchLoop_paged _ _ _ _ _ _ Hpages Hfinal). cbn [fst snd app].
  split; [reflexivity|]. apply url_request.
Qed.

(** C7. Whatever the status of a non-successful answer of the upstream,
    404 included, the fetch throws a plain [Error] whose message carries
    the status, after exactly one request for the failing page and without
    another attempt; for the root execution the route answers 500 with
    that message. [NotFoundException], hence the answer 404, is never
    produced. *)
Theorem upstream_failure_is_answered_500 id namespace runId pages bad rest :
  truthy (Some id) = true →
  truthy (Some namespace) = true →
  truthy (Some runId) = true →
  upstream (historyUrl this namespace id) = pages ++ Resolved bad :: rest →
  Forall (λ response, continues response = true) pages →
  ok bad = false →
  getWorkflowData encode upstream this namespace id
    = Thrown (Error (failureMessage bad)) ∧
  length (getWorkflowDataTraced encode upstream this namespace id).1
    = S (length pages) ∧
  workflowRoute encode upstream this (Some id) (Some namespace) (Some runId)
    = Some {| code := 500; body := JsonError (failureMessage bad) |}.
Proof.
  intros Hid Hns Hrun Hup Hpages Hbad.
  assert (Hfetch : getWorkflowDataTraced encode upstream this namespace id
            = ([] ++ (request this
                        <$> requestUrl encode (historyUrl this namespace id) None
                            :: (nextUrl encode (historyUrl this namespace id)
                                  <$> pages)),
               Thrown (Error (failureMessage bad)))).
  { unfold getWorkflowDataTraced. rewrite Hup. by apply fetchLoop_fails. }
  assert (Hdata : getWorkflowData encode upstream this namespace id
            = Thrown (Error (failureMessage bad))).
  { unfold getWorkflowData. by rewrite Hfetch. }
  split; [exact Hdata|]. split.
  - rewrite Hfetch. cbn [fst app].
    rewrite length_fmap. cbn [length]. by rewrite length_fmap.
  - unfold workflowRoute. rewrite Hid, Hns, Hrun. cbn [negb orb].
    unfold getRootWorkflowData. by rewrite Hdata.
Qed.
End Fetch.

(** Three pages with the tokens t1, t2 and none: five events in page order,
    after three requests. *)
Lemma fetch_concatenates_pages_witness :
  ∃ allEvents,
    getWorkflowData Scenario.plainEncoder Scenario.threePages Scenario.service
      "ns" "wfA" = Returned allEvents ∧
    eventId <$> allEvents = [1; 2; 3; 4; 5]%Z ∧
    url <$> (getWorkflowDataTraced Scenario.plainEncoder Scenario.threePages
               Scenario.service "ns" "wfA").1
      = [historyUrl Scenario.service "ns" "wfA";
         historyUrl Scenario.service "ns" "wfA" +:+ "t1";
         historyUrl Scenario.service "ns" "wfA" +:+ "t2"].
Proof.
  destruct (fetch_concatenates_pages Scenario.plainEncoder Scenario.threePages
              Scenario.service "ns" "wfA"
              [Scenario.page [Sample.workflowStarted 1 10 "wfA";
                              Sample.activityScheduled 2 20 "act1"] (Some "t1");
               Scenario.page [Sample.activityStarted 3 30] (Some "t2")]
              (Scenario.page [Sample.activityCompleted 4 40;
                              Sample.bare 5 50 WORKFLOW_EXECUTION_COMPLETED] None))
    as [Hdata Hurls].
  - reflexivity.
  - repeat constructor.
  - reflexivity.
  - eexists. split; [exact Hdata|]. split; [reflexivity|exact Hurls].
Defined.

(** An upstream that answers 404: the route answers 500. *)
Lemma upstream_failure_is_answered_500_witness :
  workflowRoute Scenario.plainEncoder Scenario.nothingFound Scenario.service
    (Some "wfA") (Some "ns") (Some "run1")
    = Some {| code := 500;
              body := JsonError "Failed to fetch workflow history. Status: 404" |}.
Proof.
  destruct (upstream_failure_is_answered_500 Scenario.plainEncoder
              Scenario.nothingFound Scenario.service "wfA" "ns" "run1"
              [] (Scenario.failure 404) [])
    as (_ & _ & Hroute).
  - reflexivity.
  - reflexivity.
  - reflexivity.
  - reflexivity.
  - constructor.
  - reflexivity.
  - exact Hroute.
Defined.

(** ** Assembly of the root with its children *)

Section Assembly.
Context (encode : string → string).
Context (upstream : string → list Answer).
Context (this : TemporalService).


End Assembly.



(** * Further properties of the code *)


(** ** The effect of one event *)

Lemma closeActivity_touched event a :
  isActivityClosing (eventType event) = true →
  Activity.status a = SCHEDULED ∨ Activity.status a = STARTED →
  activityTouched event a (closeActivity event a).
Proof.
  intros Hty Hopen. unfold activityTouched, closeActivity.
  destruct (eventType event); try discriminate;
    destruct (completedPayloads event); simpl;
    repeat split; right; repeat split; exact Hopen.
Qed.

Ltac added_workflow pushed :=
  cbn zeta;
  match goal with
  | |- StepEffect ?st ?event
         {| chronologicalList := _ ++ [ItemWorkflow ?w];
            workflowMap := _; activityMap := _; workflowStack := _ |} =>
      apply (effect_workflow_added st event w pushed)
  end.

Ltac added_activity :=
  cbn zeta;
  match goal with
  | |- StepEffect ?st ?event
         {| chronologicalList := _ ++ [ItemActivity ?a];
            workflowMap := _; activityMap := <[?key := _]> _;
            workflowStack := _ |} =>
      apply (effect_activity_added st event a key)
  end.

Ltac touched_activity i a Hi :=
  match goal with
  | |- StepEffect ?st ?event
         (setItems _ (<[_ := onActivity ?f _]> _)) =>
      apply (effect_activity_touched st event i a (f a) Hi)
  end.

(** Every step of the loop has one of the effects of [StepEffect]. *)
Lemma step_effect st event : StepEffect st event (step st event).
Proof.
  destruct (isWorkflowClosing (eventType event)) eqn:Hwc.
  { rewrite (step_workflow_closing _ _ Hwc). unfold onWorkflowExecutionClosed.
    cbn zeta.
    destruct (workflowMap st !! propertyKey (stackTop (workflowStack st)))
      as [ref|] eqn:Hmap; [|apply effect_pop].
    apply (effect_workflow_touched st event _ ref _ true Hmap).
    intros w. unfold workflowTouched. simpl. repeat split. left.
    repeat split. destruct (eventType event); try discriminate; reflexivity. }
  destruct (isActivityClosing (eventType event)) eqn:Hac.
  { rewrite (step_activity_closing _ _ Hac). unfold onActivityTaskClosed.
    cbn zeta.
    destruct (scanBackward _ _ _) as [i|] eqn:Hscan; [|apply effect_none].
    destruct (scanBackward_Some _ _ _ _ Hscan) as (_ & (item & Hi & Hp) & _).
    destruct item as [w|a]; [discriminate|]. simpl in Hp.
    apply andb_true_iff in Hp as [Howner Hstatus].
    apply bool_decide_eq_true in Howner.
    apply orb_true_iff in Hstatus.
    rewrite !bool_decide_eq_true in Hstatus.
    rewrite (alter_at _ _ _ _ Hi).
    apply (effect_activity_touched st event i a (closeActivity event a) Hi);
      [by symmetry|].
    apply closeActivity_touched; [exact Hac|tauto]. }
  unfold step. destruct (eventType event) eqn:Hty; try discriminate.
  - (* WorkflowExecutionStarted *)
    unfold onWorkflowExecutionStarted.
    destruct (workflowExecutionStartedEventAttributes event) as [attrs|];
      [|apply effect_none].
    added_workflow true; try reflexivity. simpl. discriminate.
  - (* ActivityTaskScheduled *)
    unfold onActivityTaskScheduled. cbn zeta.
    destruct (activityTaskScheduledEventAttributes event) as [attrs|];
      [|apply effect_none].
    destruct (stackTop (workflowStack st)) as [owner|] eqn:Htop;
      [|apply effect_none].
    destruct (truthy (Some owner)) eqn:Htruthy; [|apply effect_none].
    added_activity; try reflexivity; simpl.
    + exact Htop.
    + simpl in Htruthy. apply negb_true_iff, bool_decide_eq_false in Htruthy.
      exact Htruthy.
  - (* ActivityTaskStarted *)
    unfold onActivityTaskStarted. cbn zeta.
    destruct (activityTaskStartedEventAttributes event) as [attrs|];
      [|apply effect_none].
    destruct (scanBackward _ _ _) as [i|] eqn:Hscan; [|apply effect_none].
    destruct (scanBackward_Some _ _ _ _ Hscan) as (_ & (item & Hi & Hp) & _).
    destruct item as [w|a]; [discriminate|]. simpl in Hp.
    apply andb_true_iff in Hp as [Howner Hstatus].
    apply bool_decide_eq_true in Howner. apply bool_decide_eq_true in Hstatus.
    rewrite (alter_at _ _ _ _ Hi).
    touched_activity i a Hi; [by symmetry|].
    unfold activityTouched. simpl. repeat split. left. repeat split.
    exact Hstatus.
  - (* ChildWorkflowExecutionCompleted *)
    unfold onChildWorkflowExecutionCompleted.
    destruct (_ ≫= _) as [exec|]; [|apply effect_none]. cbn zeta.
    destruct (workflowMap st !! _) as [ref|] eqn:Hmap; [|apply effect_none].
    apply (effect_workflow_touched st event _ ref _ false Hmap).
    intros w. unfold workflowTouched. simpl. repeat split. left. repeat split.
  - (* ChildWorkflowExecutionStarted *)
    unfold onChildWorkflowExecutionStarted.
    destruct (childWorkflowExecutionStartedEventAttributes event) as [attrs|];
      [|apply effect_none].
    destruct (ChildStartedAttrs.workflowExecution attrs) as [exec|];
      [|apply effect_none].
    cbn zeta.
    destruct (keyIn (workflowMap st) _) eqn:Hin.
    + destruct (workflowMap st !! _) as [ref|] eqn:Hmap; [|apply effect_none].
      apply (effect_workflow_touched st event _ ref _ false Hmap).
      intros w. unfold workflowTouched. simpl. repeat split. right.
      repeat split.
    + apply keyIn_false in Hin as [Hmap _].
      added_workflow true; try reflexivity. simpl. intros _. exact Hmap.
  - (* StartChildWorkflowExecutionInitiated *)
    unfold onStartChildWorkflowExecutionInitiated.
    destruct (startChildWorkflowExecutionInitiatedEventAttributes event)
      as [attrs|]; [|apply effect_none].
    destruct (keyIn (workflowMap st) _) eqn:Hin.
    + destruct (workflowMap st !! _) as [ref|] eqn:Hmap; [|apply effect_none].
      apply (effect_workflow_touched st event _ ref _ false Hmap).
      intros w. unfold workflowTouched. simpl. repeat split. right.
      repeat split.
    + apply keyIn_false in Hin as [Hmap _].
      added_workflow false; try reflexivity. simpl. intros _. exact Hmap.
  - apply effect_none.
Qed.

Lemma run_snoc st es event : run st (es ++ [event]) = step (run st es) event.
Proof. by rewrite run_app. Qed.

(** An invariant of the effects of the events, started from the initial
    state, holds after every sequence of events. *)
Lemma run_invariant (I : ParseState → Prop) :
  I initialState →
  (∀ st event st', StepEffect st event st' → I st → I st') →
  ∀ es, I (run initialState es).
Proof.
  intros Hinit Hstep es. induction es as [|event es IH] using rev_ind.
  - exact Hinit.
  - rewrite run_snoc. eapply Hstep; [apply step_effect|exact IH].
Qed.

(** ** The registry of workflows and the scope stack *)

Lemma effect_wellRegistered st event st' :
  StepEffect st event st' → wellRegistered st → wellRegistered st'.
Proof.
  intros Heff [Hmap Hstack].
  destruct Heff as [| |w pushed Hids Hend Hst Hfresh
                    |a key Htop Hne Hids Hst Hs He
                    |k ref g popped Hk Hg|i a a' Hi Htop Htouched];
    unfold wellRegistered; simpl.
  - by split.
  - split; [exact Hmap|]. by apply Forall_take.
  - split.
    + intros k ref Hk.
      destruct (decide (k = Workflow.workflowId w)) as [->|Hne].
      * rewrite lookup_insert_eq in Hk. injection Hk as <-.
        exists w. split; [|reflexivity]. by apply list_lookup_middle.
      * rewrite lookup_insert_ne in Hk by done.
        destruct (Hmap _ _ Hk) as (w0 & Hw0 & Hid).
        exists w0. split; [|exact Hid]. by apply lookup_app_l_Some.
    + assert (Hold : Forall (λ k, is_Some
                (<[Workflow.workflowId w := length (chronologicalList st)]>
                   (workflowMap st) !! k)) (workflowStack st)).
      { eapply Forall_impl; [exact Hstack|]. intros k Hk.
        apply lookup_insert_is_Some'. by right. }
      destruct pushed; [|exact Hold].
      apply Forall_app. split; [exact Hold|].
      constructor; [|constructor]. rewrite lookup_insert_eq. by eexists.
  - split; [|exact Hstack]. intros k ref Hk.
    destruct (Hmap _ _ Hk) as (w0 & Hw0 & Hid).
    exists w0. split; [|exact Hid]. by apply lookup_app_l_Some.
  - split.
    + intros k' ref' Hk'. destruct (Hmap _ _ Hk') as (w0 & Hw0 & Hid).
      destruct (decide (ref = ref')) as [<-|Hne].
      * exists (g w0). split; [by rewrite list_lookup_alter_eq, Hw0|].
        destruct (Hg w0) as (_ & -> & _). exact Hid.
      * exists w0. split; [|exact Hid]. by rewrite list_lookup_alter_ne.
    + destruct popped; [by apply Forall_take|exact Hstack].
  - split; [|exact Hstack]. intros k ref Hk.
    destruct (Hmap _ _ Hk) as (w0 & Hw0 & Hid).
    exists w0. split; [|exact Hid].
    rewrite list_lookup_insert_ne; [exact Hw0|]. intros ->. congruence.
Qed.

Lemma run_wellRegistered es : wellRegistered (run initialState es).
Proof.
  apply run_invariant; [|exact effect_wellRegistered].
  split; [|constructor]. intros k ref Hk. simpl in Hk.
  by rewrite lookup_empty in Hk.
Qed.

(** X1. After every event sequence, each entry of the workflow registry refers
    to a workflow span of the output list that has the entry's key as
    workflow identifier, and each identifier on the scope stack has an
    entry. *)
Theorem registry_refers_to_its_spans es :
  (∀ k ref,
     workflowMap (run initialState es) !! k = Some ref →
     ∃ w, parseTemporalHistory es !! ref = Some (ItemWorkflow w) ∧
          Workflow.workflowId w = k) ∧
  (∀ k, k ∈ workflowStack (run initialState es) →
        is_Some (workflowMap (run initialState es) !! k)).
Proof.
  destruct (run_wellRegistered es) as [Hmap Hstack]. split; [exact Hmap|].
  by apply Forall_forall.
Qed.

(** X2. A closing event of a workflow that meets a non-empty scope stack always
    finds the span of the workflow on top: that span, which is in the output
    list, gets the event time as end time and a terminal status, and the
    workflow leaves the stack. *)
Theorem closing_event_closes_the_scope_top es event below top :
  isWorkflowClosing (eventType event) = true →
  workflowStack (run initialState es) = below ++ [top] →
  ∃ ref w w',
    parseTemporalHistory es !! ref = Some (ItemWorkflow w) ∧
    Workflow.workflowId w = top ∧
    parseTemporalHistory (es ++ [event]) !! ref = Some (ItemWorkflow w') ∧
    Workflow.workflowId w' = top ∧
    Workflow.endTime w' = Some (eventTime event) ∧
    Workflow.status w'
      = workflowTerminalStatus (eventType event) (Workflow.status w) ∧
    isTerminal (Workflow.status w') = true ∧
    workflowStack (run initialState (es ++ [event])) = below.
Proof.
  intros Hty Hstack.
  destruct (run_wellRegistered es) as [Hmap Hreg].
  rewrite Hstack, Forall_app in Hreg. destruct Hreg as [_ Htop].
  apply Forall_singleton in Htop as [ref Href].
  destruct (Hmap _ _ Href) as (w & Hw & Hid).
  unfold parseTemporalHistory. rewrite run_snoc.
  rewrite (step_workflow_closing _ _ Hty). unfold onWorkflowExecutionClosed.
  rewrite Hstack, stackTop_snoc, stackPop_snoc. simpl. rewrite Href.
  exists ref, w. eexists. split; [exact Hw|]. split; [exact Hid|].
  split; [by rewrite list_lookup_alter_eq, Hw|]. simpl.
  repeat split; try exact Hid.
  destruct (eventType event); try discriminate; reflexivity.
Qed.

(** ** Status and times of the items *)

Lemma effect_statusFits st event st' :
  StepEffect st event st' →
  Forall statusFits (chronologicalList st) →
  Forall statusFits (chronologicalList st').
Proof.
  intros Heff Hall.
  destruct Heff as [| |w pushed Hids Hend Hst Hfresh
                    |a key Htop Hne Hids Hst Hs He
                    |k ref g popped Hk Hg|i a a' Hi Htop Htouched]; simpl.
  - exact Hall.
  - exact Hall.
  - apply Forall_app. split; [exact Hall|]. constructor; [|constructor].
    simpl. by left.
  - apply Forall_app. split; [exact Hall|]. constructor; [|constructor].
    simpl. by left.
  - apply Forall_alter; [exact Hall|]. intros x _ Hfit.
    destruct x as [w|a]; [|exact Hfit]. simpl in *.
    destruct (Hg w) as (_ & _ & _ & [(Hend & Hterm & _)|(_ & Hend & Hstatus)]).
    + right. split; [exact Hterm|]. rewrite Hend. by eexists.
    + by rewrite Hend, Hstatus.
  - apply Forall_insert; [exact Hall|].
    pose proof (Forall_lookup_1 _ _ _ _ Hall Hi) as Hfit. simpl in *.
    destruct Htouched
      as (_ & _ & _ & [(Hsch & Hst & Hstart & Hend)|(_ & Hterm & Hend & _)]).
    + right; left. rewrite Hst, Hstart, Hend. split; [reflexivity|].
      split; [by eexists|].
      destruct Hfit as [(_ & _ & Hnone)|[(Hstarted & _)|(Hterm & _)]].
      * exact Hnone.
      * congruence.
      * rewrite Hsch in Hterm. discriminate.
    + right; right. split; [exact Hterm|]. rewrite Hend. by eexists.
Qed.

(** X3. The status of every item of the output agrees with its times: a workflow
    span is RUNNING without end time or terminal with one; an activity span
    is SCHEDULED with neither start nor end time, STARTED with a start time
    and no end time, or terminal with an end time. *)
Theorem status_agrees_with_times es :
  Forall statusFits (parseTemporalHistory es).
Proof.
  apply (run_invariant (λ st, Forall statusFits (chronologicalList st)));
    [constructor|exact effect_statusFits].
Qed.

(** ** Owners of the activities *)

Lemma alter_onWorkflow_activity g ref (l : list ChronologicalItem) i a :
  alter (onWorkflow g) ref l !! i = Some (ItemActivity a) →
  l !! i = Some (ItemActivity a).
Proof.
  destruct (decide (ref = i)) as [<-|Hne].
  - rewrite list_lookup_alter_eq.
    destruct (l !! ref) as [[w|a0]|]; simpl; congruence.
  - by rewrite list_lookup_alter_ne.
Qed.

Lemma alter_onWorkflow_workflow g ref (l : list ChronologicalItem) j w :
  (∀ w0, Workflow.workflowId (g w0) = Workflow.workflowId w0) →
  l !! j = Some (ItemWorkflow w) →
  ∃ w', alter (onWorkflow g) ref l !! j = Some (ItemWorkflow w') ∧
        Workflow.workflowId w' = Workflow.workflowId w.
Proof.
  intros Hg Hj. destruct (decide (ref = j)) as [<-|Hne].
  - exists (g w). by rewrite list_lookup_alter_eq, Hj.
  - exists w. by rewrite list_lookup_alter_ne.
Qed.

Lemma effect_ownersPrecede st event st' :
  StepEffect st event st' →
  wellRegistered st →
  ownersPrecede (chronologicalList st) →
  ownersPrecede (chronologicalList st').
Proof.
  intros Heff [Hmap Hstack] Hown.
  destruct Heff as [| |w pushed Hids Hend Hst Hfresh
                    |a key Htop Hne Hids Hst Hs He
                    |k ref g popped Hk Hg|i a a' Hi Htop Htouched]; simpl.
  - exact Hown.
  - exact Hown.
  - intros i a Hi. apply lookup_app_Some in Hi as [Hi|[_ Hi]].
    + destruct (Hown _ _ Hi) as (Hne & j & w0 & Hj & Hw0 & Hid).
      split; [exact Hne|]. exists j, w0.
      split; [exact Hj|]. split; [by apply lookup_app_l_Some|exact Hid].
    + destruct (i - length (chronologicalList st)) as [|n]; simpl in Hi;
        discriminate.
  - intros i a0 Hi. apply lookup_app_Some in Hi as [Hi|[Hge Hi]].
    + destruct (Hown _ _ Hi) as (Hne0 & j & w0 & Hj & Hw0 & Hid).
      split; [exact Hne0|]. exists j, w0.
      split; [exact Hj|]. split; [by apply lookup_app_l_Some|exact Hid].
    + destruct (i - length (chronologicalList st)) as [|n] eqn:Hn;
        simpl in Hi; [|destruct n; discriminate].
      injection Hi as <-. split; [exact Hne|].
      assert (Hin : Activity.workflowId a ∈ workflowStack st).
      { unfold stackTop in Htop. rewrite last_lookup in Htop.
        apply list_elem_of_lookup. by eexists. }
      rewrite Forall_forall in Hstack.
      destruct (Hstack _ Hin) as [ref Href].
      destruct (Hmap _ _ Href) as (w0 & Hw0 & Hid).
      exists ref, w0. split; [|split; [by apply lookup_app_l_Some|exact Hid]].
      apply lookup_lt_Some in Hw0. lia.
  - intros i a Hi. apply alter_onWorkflow_activity in Hi.
    destruct (Hown _ _ Hi) as (Hne & j & w0 & Hj & Hw0 & Hid).
    split; [exact Hne|].
    destruct (alter_onWorkflow_workflow g ref (chronologicalList st) j w0)
      as (w' & Hw' & Hid');
      [intros w1; by destruct (Hg w1) as (_ & -> & _)|exact Hw0|].
    exists j, w'. split; [exact Hj|]. split; [exact Hw'|congruence].
  - intros i0 a0 Hi0.
    assert (Hold : ∃ a1, chronologicalList st !! i0 = Some (ItemActivity a1) ∧
                         Activity.workflowId a1 = Activity.workflowId a0).
    { destruct (decide (i = i0)) as [<-|Hne].
      - rewrite list_lookup_insert_eq in Hi0 by (by eapply lookup_lt_Some).
        injection Hi0 as <-. exists a. split; [exact Hi|].
        by destruct Htouched as (_ & -> & _).
      - rewrite list_lookup_insert_ne in Hi0 by done. by exists a0. }
    destruct Hold as (a1 & Ha1 & Howner).
    destruct (Hown _ _ Ha1) as (Hne & j & w0 & Hj & Hw0 & Hid).
    split; [congruence|]. exists j, w0. split; [exact Hj|].
    split; [|congruence].
    rewrite list_lookup_insert_ne; [exact Hw0|]. intros ->. congruence.
Qed.

Lemma run_ownersPrecede es : ownersPrecede (chronologicalList (run initialState es)).
Proof.
  assert (H : wellRegistered (run initialState es) ∧
              ownersPrecede (chronologicalList (run initialState es))).
  { apply (run_invariant (λ st, wellRegistered st ∧
                                ownersPrecede (chronologicalList st))).
    - split; [|intros i a Hi; discriminate].
      split; [|constructor]. intros k ref Hk. simpl in Hk.
      by rewrite lookup_empty in Hk.
    - intros st event st' Heff [Hreg Hown]. split.
      + by eapply effect_wellRegistered.
      + by eapply effect_ownersPrecede. }
  exact (proj2 H).
Qed.

(** X4. Every activity span of the output is owned by a workflow with a
    non-empty identifier, and a workflow span with that identifier stands
    earlier in the output list. *)
Theorem activity_follows_its_owner es i a :
  parseTemporalHistory es !! i = Some (ItemActivity a) →
  Activity.workflowId a ≠ "" ∧
  ∃ j w, j < i ∧
         parseTemporalHistory es !! j = Some (ItemWorkflow w) ∧
         Workflow.workflowId w = Activity.workflowId a.
Proof. apply run_ownersPrecede. Qed.

(** ** Event identifiers recorded in the items *)

(** An update at one index either leaves the list as it is or replaces the
    item found there. *)
Lemma alter_cases {A} (f : A → A) (l : list A) i :
  alter f i l = l ∨ ∃ x, l !! i = Some x ∧ alter f i l = <[i := f x]> l.
Proof.
  destruct (l !! i) as [x|] eqn:Hi.
  - right. exists x. split; [reflexivity|]. by apply alter_at.
  - left. apply list_eq. intros j. destruct (decide (i = j)) as [<-|Hne].
    + by rewrite list_lookup_alter_eq, Hi.
    + by rewrite list_lookup_alter_ne.
Qed.

Lemma onWorkflow_cases g x :
  (∃ w, x = ItemWorkflow w ∧ onWorkflow g x = ItemWorkflow (g w)) ∨
  onWorkflow g x = x.
Proof. destruct x as [w|a]; [left; by exists w|by right]. Qed.

Lemma idsWithin_weaken seen eid item :
  idsWithin seen item → idsWithin (seen ++ [eid]) item.
Proof. intros [Hne Hsub]. split; [exact Hne|]. by apply sublist_inserts_r. Qed.

Lemma idsWithin_pushed seen eid item item' :
  itemRelatedEventIds item' = itemRelatedEventIds item ++ [eid] →
  idsWithin seen item → idsWithin (seen ++ [eid]) item'.
Proof.
  intros Hids [Hne Hsub]. unfold idsWithin. rewrite Hids. split.
  - intros Hnil. by apply app_eq_nil in Hnil as [_ ?].
  - by apply sublist_app.
Qed.

Lemma idsWithin_first seen eid item :
  itemRelatedEventIds item = [eid] → idsWithin (seen ++ [eid]) item.
Proof.
  intros Hids. unfold idsWithin. rewrite Hids. split; [discriminate|].
  by apply sublist_inserts_l.
Qed.

Lemma effect_idsWithin seen st event st' :
  StepEffect st event st' →
  Forall (idsWithin seen) (chronologicalList st) →
  Forall (idsWithin (seen ++ [eventId event])) (chronologicalList st').
Proof.
  intros Heff Hall.
  assert (Hweak : Forall (idsWithin (seen ++ [eventId event]))
                    (chronologicalList st)).
  { eapply Forall_impl; [exact Hall|]. intros x. apply idsWithin_weaken. }
  destruct Heff as [| |w pushed Hids Hend Hst Hfresh
                    |a key Htop Hne Hids Hst Hs He
                    |k ref g popped Hk Hg|i a a' Hi Htop Htouched]; simpl.
  - exact Hweak.
  - exact Hweak.
  - apply Forall_app. split; [exact Hweak|]. constructor; [|constructor].
    by apply idsWithin_first.
  - apply Forall_app. split; [exact Hweak|]. constructor; [|constructor].
    by apply idsWithin_first.
  - destruct (alter_cases (onWorkflow g) (chronologicalList st) ref)
      as [->|(x & Hx & ->)]; [exact Hweak|].
    apply Forall_insert; [exact Hweak|].
    pose proof (Forall_lookup_1 _ _ _ _ Hall Hx) as Hold.
    destruct (onWorkflow_cases g x) as [(w & -> & ->) | ->];
      [|by apply idsWithin_weaken].
    eapply idsWithin_pushed; [|exact Hold]. simpl.
    by destruct (Hg w) as (_ & _ & -> & _).
  - apply Forall_insert; [exact Hweak|].
    pose proof (Forall_lookup_1 _ _ _ _ Hall Hi) as Hold.
    eapply idsWithin_pushed; [|exact Hold]. simpl.
    by destruct Htouched as (_ & _ & -> & _).
Qed.

Lemma run_idsWithin es :
  Forall (idsWithin (eventId <$> es)) (chronologicalList (run initialState es)).
Proof.
  induction es as [|event es IH] using rev_ind; [constructor|].
  rewrite run_snoc, fmap_app. simpl.
  eapply effect_idsWithin; [apply step_effect|exact IH].
Qed.

(** X5. Every item of the output records at least one event, and the event
    identifiers it records are identifiers of events of the input, in the
    order of the input. *)
Theorem related_events_follow_the_input es item :
  item ∈ parseTemporalHistory es →
  itemRelatedEventIds item ≠ [] ∧
  itemRelatedEventIds item `sublist_of` (eventId <$> es).
Proof.
  intros Hin. pose proof (run_idsWithin es) as Hall.
  rewrite Forall_forall in Hall. by apply Hall.
Qed.

Lemma recorded_insert (l : list ChronologicalItem) i x x' eid :
  l !! i = Some x →
  itemRelatedEventIds x' = itemRelatedEventIds x ++ [eid] →
  recordedEventIds (<[i := x']> l) ≡ₚ recordedEventIds l ++ [eid].
Proof.
  unfold recordedEventIds. revert i.
  induction l as [|y l IH]; intros [|i] Hi Hids; simpl in *; try discriminate.
  - injection Hi as ->. rewrite Hids, <- !app_assoc.
    apply Permutation_app_head, Permutation_app_comm.
  - rewrite (IH i Hi Hids). by rewrite app_assoc.
Qed.

Lemma effect_recorded st event st' :
  StepEffect st event st' →
  recordedEventIds (chronologicalList st')
    ⊆+ recordedEventIds (chronologicalList st) ++ [eventId event].
Proof.
  intros Heff.
  assert (Hsame : recordedEventIds (chronologicalList st)
            ⊆+ recordedEventIds (chronologicalList st) ++ [eventId event])
    by (by apply submseteq_inserts_r).
  assert (Hadd : ∀ item, itemRelatedEventIds item = [eventId event] →
            recordedEventIds (chronologicalList st ++ [item])
            ⊆+ recordedEventIds (chronologicalList st) ++ [eventId event]).
  { intros item Hids. unfold recordedEventIds.
    rewrite fmap_app, concat_app. simpl. by rewrite Hids, app_nil_r. }
  destruct Heff as [| |w pushed Hids Hend Hst Hfresh
                    |a key Htop Hne Hids Hst Hs He
                    |k ref g popped Hk Hg|i a a' Hi Htop Htouched]; simpl.
  - exact Hsame.
  - exact Hsame.
  - by apply Hadd.
  - by apply Hadd.
  - destruct (alter_cases (onWorkflow g) (chronologicalList st) ref)
      as [->|(x & Hx & ->)]; [exact Hsame|].
    destruct (onWorkflow_cases g x) as [(w & -> & ->) | ->].
    + apply Permutation_submseteq. eapply recorded_insert; [exact Hx|].
      simpl. by destruct (Hg w) as (_ & _ & -> & _).
    + by rewrite list_insert_id.
  - apply Permutation_submseteq. eapply recorded_insert; [exact Hi|].
    simpl. by destruct Htouched as (_ & _ & -> & _).
Qed.

Lemma run_recorded es :
  recordedEventIds (chronologicalList (run initialState es)) ⊆+ eventId <$> es.
Proof.
  induction es as [|event es IH] using rev_ind; [reflexivity|].
  rewrite run_snoc, fmap_app. simpl.
  etrans; [apply effect_recorded, step_effect|]. by apply submseteq_skips_r.
Qed.

Lemma recorded_length (l : list ChronologicalItem) :
  Forall (λ item, itemRelatedEventIds item ≠ []) l →
  length l ≤ length (recordedEventIds l).
Proof.
  unfold recordedEventIds. induction 1 as [|x l Hx _ IH]; [reflexivity|].
  rewrite fmap_cons. cbn [concat length]. rewrite length_app.
  destruct (itemRelatedEventIds x); [done|]. cbn [length]. lia.
Qed.

(** X6. No event is recorded twice: the event identifiers recorded by all the
    items of the output, taken together with their multiplicities, are among
    the identifiers of the events of the input. Hence the output has no more
    items than the input has events. *)
Theorem each_event_is_recorded_at_most_once es :
  recordedEventIds (parseTemporalHistory es) ⊆+ eventId <$> es ∧
  length (parseTemporalHistory es) ≤ length es.
Proof.
  pose proof (run_recorded es) as Hrec. split; [exact Hrec|].
  apply submseteq_length in Hrec. rewrite length_fmap in Hrec.
  etrans; [|exact Hrec]. apply recorded_length.
  eapply Forall_impl; [apply run_idsWithin|]. by intros item [Hne _].
Qed.

(** ** Child workflows of the output *)

Lemma childIds_cons x l : childIds (x :: l) = childIds [x] ++ childIds l.
Proof.
  unfold childIds. simpl.
  destruct x as [w|a]; [|reflexivity]. by case_bool_decide.
Qed.

Lemma childIds_insert (l : list ChronologicalItem) i x x' :
  l !! i = Some x → childIds [x'] = childIds [x] →
  childIds (<[i := x']> l) = childIds l.
Proof.
  revert i. induction l as [|y l IH]; intros [|i] Hi Hsame; try discriminate.
  - injection Hi as ->. change (<[0:=x']> (x :: l)) with (x' :: l).
    by rewrite (childIds_cons x' l), (childIds_cons x l), Hsame.
  - change (<[S i:=x']> (y :: l)) with (y :: <[i:=x']> l).
    rewrite (childIds_cons y (<[i:=x']> l)), (childIds_cons y l).
    f_equal. by apply IH.
Qed.

Lemma childIds_snoc_workflow l w :
  childIds (l ++ [ItemWorkflow w])
    = childIds l ++ (if bool_decide (Workflow.type w = childWorkflow)
                     then [Workflow.workflowId w] else []).
Proof. unfold childIds. rewrite omap_app. simpl. by case_bool_decide. Qed.

Lemma childIds_snoc_activity l a : childIds (l ++ [ItemActivity a]) = childIds l.
Proof. unfold childIds. rewrite omap_app. simpl. by rewrite app_nil_r. Qed.

Lemma effect_childrenDistinct st event st' :
  StepEffect st event st' → childrenDistinct st → childrenDistinct st'.
Proof.
  intros Heff [Hnodup Hreg].
  destruct Heff as [| |w pushed Hids Hend Hst Hfresh
                    |a key Htop Hne Hids Hst Hs He
                    |k ref g popped Hk Hg|i a a' Hi Htop Htouched];
    unfold childrenDistinct; simpl.
  - by split.
  - by split.
  - rewrite childIds_snoc_workflow. split.
    + apply NoDup_app. split; [exact Hnodup|]. split.
      * intros k Hk Hin. case_bool_decide as Hchild; [|by apply not_elem_of_nil in Hin].
        apply list_elem_of_singleton in Hin as ->.
        destruct (Hreg _ Hk) as [ref Href]. rewrite (Hfresh Hchild) in Href.
        discriminate.
      * case_bool_decide; [apply NoDup_singleton|apply NoDup_nil_2].
    + intros k Hk. apply lookup_insert_is_Some'.
      apply elem_of_app in Hk as [Hk|Hk]; [right; by apply Hreg|].
      case_bool_decide; [|by apply not_elem_of_nil in Hk].
      apply list_elem_of_singleton in Hk as ->. by left.
  - rewrite childIds_snoc_activity. by split.
  - assert (Hsame : childIds (alter (onWorkflow g) ref (chronologicalList st))
                    = childIds (chronologicalList st)).
    { destruct (alter_cases (onWorkflow g) (chronologicalList st) ref)
        as [->|(x & Hx & ->)]; [reflexivity|].
      apply (childIds_insert _ _ x); [exact Hx|].
      destruct (onWorkflow_cases g x) as [(w & -> & ->) | ->]; [|reflexivity].
      unfold childIds. simpl.
      by destruct (Hg w) as (-> & -> & _). }
    rewrite Hsame. by split.
  - rewrite (childIds_insert _ _ (ItemActivity a)); [by split|exact Hi|].
    reflexivity.
Qed.

Lemma run_childrenDistinct es : childrenDistinct (run initialState es).
Proof.
  apply run_invariant; [|exact effect_childrenDistinct].
  split; [constructor|]. intros k Hk. by apply not_elem_of_nil in Hk.
Qed.

(** X7. Whatever the events, the child workflow spans of the output have
    pairwise distinct workflow identifiers: a discovered child is listed
    once. *)
Theorem children_are_listed_once es :
  NoDup (childIds (parseTemporalHistory es)).
Proof. apply run_childrenDistinct. Qed.

(** ** Events without effect *)

Lemma step_ignored st event : isIgnored event = true → step st event = st.
Proof.
  unfold isIgnored, step.
  destruct (eventType event); try discriminate;
    rewrite ?bool_decide_eq_true; intros Hnone.
  - unfold onWorkflowExecutionStarted. by rewrite Hnone.
  - unfold onActivityTaskScheduled. by rewrite Hnone.
  - unfold onActivityTaskStarted. by rewrite Hnone.
  - unfold onChildWorkflowExecutionCompleted. by rewrite Hnone.
  - unfold onChildWorkflowExecutionStarted.
    destruct (childWorkflowExecutionStartedEventAttributes event) as [attrs|];
      [|reflexivity].
    simpl in Hnone. by rewrite Hnone.
  - unfold onStartChildWorkflowExecutionInitiated. by rewrite Hnone.
  - reflexivity.
Qed.

Lemma run_without_ignored es : ∀ st,
  run st (filter (λ event, isIgnored event = false) es) = run st es.
Proof.
  induction es as [|event es IH]; intros st; [reflexivity|].
  destruct (isIgnored event) eqn:Hig.
  - rewrite filter_cons_False by (rewrite Hig; discriminate).
    simpl. by rewrite (step_ignored _ _ Hig).
  - rewrite filter_cons_True by exact Hig. simpl. apply IH.
Qed.

(** X8. The events that the parser skips (an unknown kind, or a start, schedule,
    start-of-activity or child event that comes without the attributes the
    parser reads) can be removed from the history, wherever they stand,
    without changing the output. *)
Theorem ignored_events_can_be_removed es :
  parseTemporalHistory (filter (λ event, isIgnored event = false) es)
    = parseTemporalHistory es.
Proof. unfold parseTemporalHistory. by rewrite run_without_ignored. Qed.

(** ** Outcomes and requests of the fetch *)

Section FetchOutcomes.
Context (encode : string → string).
Context (upstream : string → list Answer).
Context (this : TemporalService).

Lemma fetchLoop_returned baseUrl responses :
  ∀ token allEvents requests requests' fetched,
    fetchLoop encode this baseUrl responses token allEvents requests
      = (requests', Returned fetched) →
    ∃ pages final rest,
      responses = pages ++ final :: rest ∧
      Forall (λ response, continues response = true) pages ∧
      isLastPage final = true ∧
      fetched = allEvents ++ concat (pageEvents <$> pages ++ [final]).
Proof.
  induction responses as [|answer responses IH];
    intros token allEvents requests requests' fetched Hloop;
    cbn [fetchLoop] in Hloop; [discriminate|].
  destruct answer as [message|response]; [discriminate|].
  destruct (ok response) eqn:Hok; cbn [negb] in Hloop; [|discriminate].
  destruct (json response) as [message|data] eqn:Hjson; [discriminate|].
  assert (Hpage : pageOf (Resolved response) = Some data)
    by (simpl; by rewrite Hok, Hjson).
  assert (Hev : pageEvents (Resolved response)
                = events (HistoryResponse.history data))
    by (unfold pageEvents; by rewrite Hpage).
  destruct (truthy (HistoryResponse.nextPageToken data)) eqn:Htoken.
  - destruct (IH _ _ _ _ _ Hloop) as (pages & final & rest & -> & Hpages & Hfinal & ->).
    exists (Resolved response :: pages), final, rest. split; [reflexivity|].
    split; [|split; [exact Hfinal|]].
    + constructor; [|exact Hpages]. unfold continues. by rewrite Hpage.
    + rewrite <- app_assoc, <- Hev. reflexivity.
  - injection Hloop as _ <-. exists [], (Resolved response), responses.
    split; [reflexivity|]. split; [constructor|]. split.
    + unfold isLastPage. by rewrite Hpage, Htoken.
    + simpl. by rewrite Hev, app_nil_r.
Qed.

(** X10. The fetch returns only whole histories: when it returns, the upstream
    has answered with pages that all succeeded, of which the last one, and
    only the last one, carries no continuation token, and the result is the
    events of exactly these pages in page order. *)
Theorem fetch_returns_only_whole_histories namespace workflowId fetched :
  getWorkflowData encode upstream this namespace workflowId = Returned fetched →
  ∃ pages final rest,
    upstream (historyUrl this namespace workflowId) = pages ++ final :: rest ∧
    Forall (λ response, continues response = true) pages ∧
    isLastPage final = true ∧
    fetched = concat (pageEvents <$> pages ++ [final]).
Proof.
  unfold getWorkflowData, getWorkflowDataTraced. intros Hdata.
  destruct (fetchLoop encode this _ _ None [] []) as [requests outcome] eqn:Hloop.
  simpl in Hdata. subst outcome.
  destruct (fetchLoop_returned _ _ _ _ _ _ _ Hloop)
    as (pages & final & rest & Hup & Hpages & Hfinal & ->).
  by exists pages, final, rest.
Qed.

Lemma fetchLoop_requests baseUrl responses :
  ∀ token allEvents requests,
    ∃ n,
      n ≤ length responses ∧
      Forall (λ response, continues response = true) (take n responses) ∧
      (fetchLoop encode this baseUrl responses token allEvents requests).1
        = requests
          ++ (request this
                <$> requestUrl encode baseUrl token
                    :: (nextUrl encode baseUrl <$> take n responses)).
Proof.
  induction responses as [|answer responses IH];
    intros token allEvents requests; cbn [fetchLoop].
  - exists 0. split; [reflexivity|]. split; [constructor|reflexivity].
  - destruct answer as [message|response];
      [exists 0; split; [simpl; lia|]; split; [constructor|reflexivity]|].
    destruct (ok response) eqn:Hok; cbn [negb];
      [|exists 0; split; [simpl; lia|]; split; [constructor|reflexivity]].
    destruct (json response) as [message|data] eqn:Hjson;
      [exists 0; split; [simpl; lia|]; split; [constructor|reflexivity]|].
    assert (Hpage : pageOf (Resolved response) = Some data)
      by (simpl; by rewrite Hok, Hjson).
    destruct (truthy (HistoryResponse.nextPageToken data)) eqn:Htoken;
      [|exists 0; split; [simpl; lia|]; split; [constructor|reflexivity]].
    destruct (IH (HistoryResponse.nextPageToken data)
                (allEvents ++ events (HistoryResponse.history data))
                (requests ++ [request this (requestUrl encode baseUrl token)]))
      as (n & Hn & Hpages & Hreqs).
    assert (Hc : continues (Resolved response) = true)
      by (unfold continues; by rewrite Hpage).
    exists (S n). split; [simpl; lia|]. split.
    + simpl. by constructor.
    + rewrite Hreqs, (requestUrl_continues _ _ _ _ Hpage Htoken), <- app_assoc.
      reflexivity.
Qed.

(** X11. Whatever the upstream answers, the fetch first requests the history URL
    without a page token, and every further request is made for a page that
    succeeded and carried a continuation token, with that token encoded at
    the end of the history URL, in the order of the pages; all the requests
    carry the bearer credential of the service. *)
Theorem requests_follow_the_tokens namespace workflowId :
  ∃ n,
    n ≤ length (upstream (historyUrl this namespace workflowId)) ∧
    Forall (λ response, continues response = true)
      (take n (upstream (historyUrl this namespace workflowId))) ∧
    (getWorkflowDataTraced encode upstream this namespace workflowId).1
      = (λ target, {| url := target;
                      authorization := "Bearer " +:+ apiKey this |})
          <$> historyUrl this namespace workflowId
              :: (nextUrl encode (historyUrl this namespace workflowId)
                    <$> take n (upstream (historyUrl this namespace workflowId))).
Proof.
  unfold getWorkflowDataTraced.
  destruct (fetchLoop_requests (historyUrl this namespace workflowId)
              (upstream (historyUrl this namespace workflowId)) None [] [])
    as (n & Hn & Hpages & Hreqs).
  exists n. split; [exact Hn|]. split; [exact Hpages|]. exact Hreqs.
Qed.








End FetchOutcomes.

(** ** Entries of the children map *)

Section Children.
Context (encode : string → string).
Context (upstream : string → list Answer).
Context (this : TemporalService).


End Children.

(** ** Construction of the service *)

(** X15. The constructor returns a service exactly when both settings are
    present and non-empty in the environment, and the service holds them.
    It throws for the API key when that is missing or empty, whatever the
    endpoint; it throws for the endpoint exactly when the API key is present
    and non-empty and the endpoint is missing or empty. *)
Theorem service_needs_both_settings env :
  match newTemporalService env with
  | inr service =>
      env !! "TEMPORAL_API_KEY" = Some (apiKey service) ∧
      apiKey service ≠ "" ∧
      env !! "TEMPORAL_ENDPOINT" = Some (endpoint service) ∧
      endpoint service ≠ ""
  | inl e =>
      (e = Error "Temporal API Key is required" ∧
       (env !! "TEMPORAL_API_KEY" = None ∨ env !! "TEMPORAL_API_KEY" = Some "")) ∨
      (e = Error "Temporal Endpoint is required" ∧
       (∃ key, env !! "TEMPORAL_API_KEY" = Some key ∧ key ≠ "") ∧
       (env !! "TEMPORAL_ENDPOINT" = None ∨ env !! "TEMPORAL_ENDPOINT" = Some ""))
  end.
Proof.
  unfold newTemporalService.
  destruct (env !! "TEMPORAL_API_KEY") as [key|]; simpl;
    [|left; split; [reflexivity|by left]].
  case_bool_decide as Hkey; [left; split; [reflexivity|right; by subst]|].
  destruct (env !! "TEMPORAL_ENDPOINT") as [target|]; simpl;
    [|right; split; [reflexivity|split; [by exists key|by left]]].
  case_bool_decide as Htarget.
  - right. split; [reflexivity|]. split; [by exists key|right; by subst].
  - simpl. by repeat split.
Qed.

(** ** Activity events and the workflows *)

Lemma alter_onActivity_workflow f i (l : list ChronologicalItem) j w :
  alter (onActivity f) i l !! j = Some (ItemWorkflow w)
  ↔ l !! j = Some (ItemWorkflow w).
Proof.
  destruct (decide (i = j)) as [<-|Hne].
  - rewrite list_lookup_alter_eq.
    destruct (l !! i) as [[w0|a0]|]; simpl; split; congruence.
  - by rewrite list_lookup_alter_ne.
Qed.

Lemma snoc_activity_workflow (l : list ChronologicalItem) a j w :
  (l ++ [ItemActivity a]) !! j = Some (ItemWorkflow w)
  ↔ l !! j = Some (ItemWorkflow w).
Proof.
  split; [|apply lookup_app_l_Some].
  intros Hj. apply lookup_app_Some in Hj as [Hj|[_ Hj]]; [exact Hj|].
  destruct (j - length l) as [|n]; simpl in Hj; discriminate.
Qed.

(** X9. An event of an activity (scheduled, started, or one of the four closing
    kinds) never touches the workflows: the registry and the scope stack are
    left as they are, and the workflow spans of the output list are the same
    spans at the same positions. *)
Theorem activity_events_leave_workflows_alone st event :
  isActivityEvent (eventType event) = true →
  workflowMap (step st event) = workflowMap st ∧
  workflowStack (step st event) = workflowStack st ∧
  ∀ j w, chronologicalList (step st event) !! j = Some (ItemWorkflow w)
         ↔ chronologicalList st !! j = Some (ItemWorkflow w).
Proof.
  intros Hty.
  destruct (isActivityClosing (eventType event)) eqn:Hac.
  { rewrite (step_activity_closing _ _ Hac). unfold onActivityTaskClosed.
    cbn zeta. destruct (scanBackward _ _ _); [|done].
    simpl. repeat split; apply alter_onActivity_workflow. }
  unfold isActivityEvent in Hty. unfold step.
  destruct (eventType event); try discriminate.
  - unfold onActivityTaskScheduled. cbn zeta.
    destruct (activityTaskScheduledEventAttributes event); [|done].
    destruct (stackTop (workflowStack st)); [|done].
    destruct (truthy _); [|done].
    simpl. repeat split; apply snoc_activity_workflow.
  - unfold onActivityTaskStarted. cbn zeta.
    destruct (activityTaskStartedEventAttributes event); [|done].
    destruct (scanBackward _ _ _); [|done].
    simpl. repeat split; apply alter_onActivity_workflow.
Qed.

(** Scheduling an activity under the root wfA leaves the span of wfA, the
    registry and the stack as they were. *)
Lemma activity_events_leave_workflows_alone_witness :
  workflowMap (step Scenario.rootOnly (Sample.activityScheduled 2 20 "act1"))
    = workflowMap Scenario.rootOnly ∧
  workflowStack (step Scenario.rootOnly (Sample.activityScheduled 2 20 "act1"))
    = ["wfA"] ∧
  chronologicalList
    (step Scenario.rootOnly (Sample.activityScheduled 2 20 "act1")) !! 0
    = chronologicalList Scenario.rootOnly !! 0.
Proof.
  destruct (activity_events_leave_workflows_alone Scenario.rootOnly
              (Sample.activityScheduled 2 20 "act1") eq_refl)
    as (Hmap & Hstack & Hitems).
  split; [exact Hmap|]. split; [exact Hstack|].
  destruct (chronologicalList Scenario.rootOnly !! 0) as [[w|a]|] eqn:H0;
    [|discriminate H0|discriminate H0].
  by apply Hitems.
Defined.

(** ** The further properties on the scenarios *)

(** WorkflowExecutionFailed closes the root wfA, which is on top of the
    stack. *)
Lemma closing_event_closes_the_scope_top_witness :
  ∃ ref w',
    parseTemporalHistory
      ([Sample.workflowStarted 1 10 "wfA"]
       ++ [Sample.bare 2 20 WORKFLOW_EXECUTION_FAILED]) !! ref
      = Some (ItemWorkflow w') ∧
    Workflow.workflowId w' = "wfA" ∧
    Workflow.endTime w' = Some 20%Z ∧
    Workflow.status w' = FAILED.
Proof.
  destruct (closing_event_closes_the_scope_top
              [Sample.workflowStarted 1 10 "wfA"]
              (Sample.bare 2 20 WORKFLOW_EXECUTION_FAILED) [] "wfA"
              eq_refl eq_refl)
    as (ref & w & w' & Hw & Hid & Hw' & Hid' & Hend & Hstatus & _ & _).
  exists ref, w'. split; [exact Hw'|]. split; [exact Hid'|].
  split; [exact Hend|]. rewrite Hstatus. reflexivity.
Defined.

(** The activity act1 of the root wfA stands after the span of wfA. *)
Lemma activity_follows_its_owner_witness :
  ∃ j w,
    j < 1 ∧
    parseTemporalHistory
      [Sample.workflowStarted 1 10 "wfA";
       Sample.activityScheduled 2 20 "act1";
       Sample.activityStarted 3 30; Sample.activityCompleted 4 40;
       Sample.bare 5 50 WORKFLOW_EXECUTION_COMPLETED] !! j
      = Some (ItemWorkflow w) ∧
    Workflow.workflowId w = "wfA".
Proof.
  destruct (activity_follows_its_owner
              [Sample.workflowStarted 1 10 "wfA";
               Sample.activityScheduled 2 20 "act1";
               Sample.activityStarted 3 30; Sample.activityCompleted 4 40;
               Sample.bare 5 50 WORKFLOW_EXECUTION_COMPLETED] 1 _ eq_refl)
    as (_ & j & w & Hj & Hw & Hid).
  exists j, w. split; [exact Hj|]. split; [exact Hw|exact Hid].
Defined.

(** The activity act1 records the events 2, 3 and 4 of the five events. *)
Lemma related_events_follow_the_input_witness :
  ∃ item,
    parseTemporalHistory
      [Sample.workflowStarted 1 10 "wfA";
       Sample.activityScheduled 2 20 "act1";
       Sample.activityStarted 3 30; Sample.activityCompleted 4 40;
       Sample.bare 5 50 WORKFLOW_EXECUTION_COMPLETED] !! 1 = Some item ∧
    itemRelatedEventIds item = [2; 3; 4]%Z ∧
    itemRelatedEventIds item `sublist_of` [1; 2; 3; 4; 5]%Z.
Proof.
  eexists. split; [reflexivity|]. split; [reflexivity|].
  apply (related_events_follow_the_input
           [Sample.workflowStarted 1 10 "wfA";
            Sample.activityScheduled 2 20 "act1";
            Sample.activityStarted 3 30; Sample.activityCompleted 4 40;
            Sample.bare 5 50 WORKFLOW_EXECUTION_COMPLETED]).
  apply list_elem_of_lookup. exists 1. reflexivity.
Defined.

(** The fetch of the three pages returns: the third page is the last. *)
Lemma fetch_returns_only_whole_histories_witness :
  ∃ pages final rest,
    Scenario.threePages (historyUrl Scenario.service "ns" "wfA")
      = pages ++ final :: rest ∧
    Forall (λ response, continues response = true) pages ∧
    isLastPage final = true.
Proof.
  assert (Hfetch : getWorkflowData Scenario.plainEncoder Scenario.threePages
                     Scenario.service "ns" "wfA"
                   = Returned (concat (pageEvents <$> Scenario.threePages "")))
    by (vm_compute; reflexivity).
  destruct (fetch_returns_only_whole_histories Scenario.plainEncoder
              Scenario.threePages Scenario.service "ns" "wfA"
              (concat (pageEvents <$> Scenario.threePages "")) Hfetch)
    as (pages & final & rest & Hup & Hpages & Hfinal & _).
  exists pages, final, rest. split; [exact Hup|]. split; assumption.
Defined.


